(** * Stack maps of the optimizing compiler: runtime/stack_map.cc

    A shallow embedding of the variable-width field codec ([LoadAt],
    [StoreAt]), of the safepoint-record accessors built on it
    ([StackMap]), of the record-size computation and of the location
    lookup of a variable map ([DexRegisterMap]), followed by the
    properties the format description states about them.

    Integers are [Z] with the wrap-around of their C++ type written out;
    a memory region is the list of its bytes; a function that can trip an
    assertion or leave its region returns a [Result]. *)

From Stdlib Require Import ZArith List Bool Lia.
From coqutil Require Import Byte Word.LittleEndianList.
Import ListNotations.
Local Open Scope Z_scope.

(** ** Build configuration *)

(** What the translation unit takes from the build and the target:
    whether debug assertions are compiled in ([DCHECK] is [CHECK] under
    [kEnableDChecks] and nothing otherwise), and the width of [size_t]. *)
Class Build := {
  kEnableDChecks : bool;
  size_t_bits : Z
}.

(** A 64-bit debug build and a 32-bit release build. *)
Definition debug_build_64 : Build := {| kEnableDChecks := true; size_t_bits := 64 |}.
Definition release_build_32 : Build := {| kEnableDChecks := false; size_t_bits := 32 |}.

(** ** Outcomes *)

Inductive Failure : Type :=
| DCheckFailure   (* a debug assertion did not hold: the process aborts *)
| OutOfBounds.    (* an access outside the region or table: contract violation *)

Inductive Result (A : Type) : Type :=
| Ok (a : A)
| Abort (f : Failure).

Arguments Ok {A} a.
Arguments Abort {A} f.

Definition bind {A B : Type} (c : Result A) (k : A -> Result B) : Result B :=
  match c with
  | Ok a => k a
  | Abort f => Abort f
  end.

Declare Scope result_scope.
Delimit Scope result_scope with result.
Notation "x <- c ;; k" := (bind c (fun x => k))
  (at level 61, c at next level, right associativity) : result_scope.
Notation "c ;;; k" := (bind c (fun _ => k))
  (at level 61, right associativity) : result_scope.
Local Open Scope result_scope.

Definition DCHECK `{Build} (condition : bool) : Result unit :=
  if kEnableDChecks && negb condition then Abort DCheckFailure else Ok tt.

Definition is_Ok {A : Type} (r : Result A) : bool :=
  match r with Ok _ => true | Abort _ => false end.

(** ** Fixed-width unsigned integers *)

Inductive UnsignedType : Type := uint8_t | uint16_t | uint32_t.

Definition sizeof (T : UnsignedType) : nat :=
  match T with
  | uint8_t => 1
  | uint16_t => 2
  | uint32_t => 4
  end.

Definition kBitsPerByte : Z := 8.

(** Conversion of an integer to the unsigned type [T]: reduction modulo
    [2 ^ (8 * sizeof T)]. *)
Definition static_cast (T : UnsignedType) (v : Z) : Z :=
  v mod 2 ^ (kBitsPerByte * Z.of_nat (sizeof T)).

(** The all-ones bit pattern of a field of [number_of_bytes] bytes. *)
Definition all_ones (number_of_bytes : Z) : Z :=
  2 ^ (kBitsPerByte * number_of_bytes) - 1.

(** [size_t] arithmetic. *)
Definition size_t `{Build} (v : Z) : Z := v mod 2 ^ size_t_bits.

(** Modelled from the spec: [Low16Bits] and [High16Bits] (utils.h is not
    among the sources), the "2-byte low part" of a value and the bits
    above it, both of type [uint16_t]. *)
Definition Low16Bits (value : Z) : Z := static_cast uint16_t value.
Definition High16Bits (value : Z) : Z := static_cast uint16_t (Z.shiftr value 16).

(** ** Memory regions *)

Module MemoryRegion.

(** Modelled from the spec: [MemoryRegion] (memory_region.h is not among
    the sources), "a little-endian unaligned-access abstraction over a
    raw byte buffer".  The region is the list of the bytes it covers; a
    store returns the bytes after the store.  An access that does not
    lie within the region is a contract violation. *)
Definition t : Type := list byte.

Definition size (region : t) : Z := Z.of_nat (length region).

Definition contains (region : t) (offset : Z) (n : nat) : bool :=
  (0 <=? offset) && (offset + Z.of_nat n <=? size region).

Definition LoadUnaligned (T : UnsignedType) (region : t) (offset : Z) : Result Z :=
  if contains region offset (sizeof T)
  then Ok (le_combine (firstn (sizeof T) (skipn (Z.to_nat offset) region)))
  else Abort OutOfBounds.

(** [value] is converted to [T] by the call: [le_split] keeps its low
    [sizeof T] bytes. *)
Definition StoreUnaligned (T : UnsignedType) (region : t) (offset : Z) (value : Z)
  : Result t :=
  if contains region offset (sizeof T)
  then Ok (firstn (Z.to_nat offset) region
             ++ le_split (sizeof T) value
             ++ skipn (Z.to_nat offset + sizeof T) region)
  else Abort OutOfBounds.

(** Modelled from the spec: [MemoryRegion::Subregion] (memory_region.h is
    not among the sources), the view over the [size_in] bytes at [offset]
    that backs "a bit-region view over its stack mask".  A view that does
    not lie within the region is a contract violation. *)
Definition Subregion (region : t) (offset size_in : Z) : Result t :=
  if contains region offset (Z.to_nat size_in)
  then Ok (firstn (Z.to_nat size_in) (skipn (Z.to_nat offset) region))
  else Abort OutOfBounds.

End MemoryRegion.

(** ** The variable-width field codec *)

Section Codec.
Context `{Build}.

(** Loads [number_of_bytes] at the given [offset] and assembles a
    [uint32_t].  If [check_max] is true, a maximum value of size
    [number_of_bytes] is converted into [0xFFFFFFFF]. *)
Definition LoadAt (region : MemoryRegion.t) (number_of_bytes offset : Z)
           (check_max : bool) : Result Z :=
  if number_of_bytes =? 0 then
    DCHECK (negb check_max) ;;;
    Ok 0
  else if number_of_bytes =? 1 then
    value <- MemoryRegion.LoadUnaligned uint8_t region offset ;;
    if check_max && (value =? 0xFF)
    then Ok (static_cast uint32_t (-1))
    else Ok value
  else if number_of_bytes =? 2 then
    value <- MemoryRegion.LoadUnaligned uint16_t region offset ;;
    if check_max && (value =? 0xFFFF)
    then Ok (static_cast uint32_t (-1))
    else Ok value
  else if number_of_bytes =? 3 then
    low <- MemoryRegion.LoadUnaligned uint16_t region offset ;;
    high <- MemoryRegion.LoadUnaligned uint8_t region
              (size_t (offset + Z.of_nat (sizeof uint16_t))) ;;
    let value := static_cast uint32_t (Z.shiftl high 16 + low) in
    if check_max && (value =? 0xFFFFFF)
    then Ok (static_cast uint32_t (-1))
    else Ok value
  else
    DCHECK (number_of_bytes =? 4) ;;;
    MemoryRegion.LoadUnaligned uint32_t region offset.

Definition StoreAt (region : MemoryRegion.t) (number_of_bytes offset : Z)
           (value : Z) : Result MemoryRegion.t :=
  if number_of_bytes =? 0 then
    DCHECK (value =? 0) ;;;
    Ok region
  else if number_of_bytes =? 1 then
    MemoryRegion.StoreUnaligned uint8_t region offset value
  else if number_of_bytes =? 2 then
    MemoryRegion.StoreUnaligned uint16_t region offset value
  else if number_of_bytes =? 3 then
    region <- MemoryRegion.StoreUnaligned uint16_t region offset (Low16Bits value) ;;
    MemoryRegion.StoreUnaligned uint8_t region
      (size_t (offset + Z.of_nat (sizeof uint16_t))) (High16Bits value)
  else
    region <- MemoryRegion.StoreUnaligned uint32_t region offset value ;;
    DCHECK (number_of_bytes =? 4) ;;;
    Ok region.

End Codec.

(** ** Variable locations and their catalog *)

Module DexRegisterLocation.

(** Modelled from the spec: [DexRegisterLocation] (stack_map.h is not
    among the sources), a "(kind, value) pair describing where a
    variable's value resides (in a register / on the stack at an offset /
    a constant, etc.)", with a kind of its own for "no location". *)
Inductive Kind : Type :=
| kNone
| kInStack
| kInRegister
| kConstant.

Record t : Type := Build_location {
  GetInternalKind : Kind;
  GetValue : Z
}.

Definition None : t := {| GetInternalKind := kNone; GetValue := 0 |}.

End DexRegisterLocation.

(** Modelled from the spec: what a lookup hands back together with the
    catalog entries it read, so that "no catalog access" can be stated. *)
Record Traced (A : Type) : Type := traced {
  outcome : Result A;
  catalog_reads : list Z
}.

Arguments traced {A} outcome catalog_reads.
Arguments outcome {A} _.
Arguments catalog_reads {A} _.

Module DexRegisterLocationCatalog.

(** Modelled from the spec: [DexRegisterLocationCatalog] (stack_map.h is
    not among the sources), the "deduplicated table of distinct
    variable-location descriptors, index-addressed", "indexed
    0..count-1 by position".  The byte encoding of an entry is left
    out: the catalog is the list of its entries. *)
Definition t : Type := list DexRegisterLocation.t.

(** Modelled from the spec: the reserved index declared at
    stack_map.cc:25, the all-ones sentinel of [size_t]. *)
Definition kNoLocationEntryIndex `{Build} : Z := size_t (-1).

(** Modelled from the spec: [locationAt(index)].  The source hands every
    resolved index to the catalog, and the spec gives a dead variable
    "no location" with no catalog access: the reserved index is answered
    before any entry is read.  An index past the last entry is a
    contract violation. *)
Definition GetDexRegisterLocation `{Build} (catalog : t)
           (location_catalog_entry_index : Z) : Traced DexRegisterLocation.t :=
  if location_catalog_entry_index =? kNoLocationEntryIndex then
    traced (Ok DexRegisterLocation.None) []
  else
    match nth_error catalog (Z.to_nat location_catalog_entry_index) with
    | Some location => traced (Ok location) [location_catalog_entry_index]
    | None => traced (Abort OutOfBounds) [location_catalog_entry_index]
    end.

(** Modelled from the spec: [kindAt(index)]. *)
Definition GetLocationInternalKind `{Build} (catalog : t)
           (location_catalog_entry_index : Z) : Traced DexRegisterLocation.Kind :=
  if location_catalog_entry_index =? kNoLocationEntryIndex then
    traced (Ok DexRegisterLocation.kNone) []
  else
    match nth_error catalog (Z.to_nat location_catalog_entry_index) with
    | Some location =>
        traced (Ok (DexRegisterLocation.GetInternalKind location))
               [location_catalog_entry_index]
    | None => traced (Abort OutOfBounds) [location_catalog_entry_index]
    end.

End DexRegisterLocationCatalog.

(** ** The table header *)

Module CodeInfo.

(** The header of one table, as the accessors of [CodeInfo] that
    stack_map.cc calls report it (stack_map.h is not among the sources,
    so each accessor is a field). *)
Record t : Type := Build_info {
  HasInlineInfo : bool;
  NumberOfBytesForInlineInfo : Z;
  NumberOfBytesForDexRegisterMap : Z;
  NumberOfBytesForDexPc : Z;
  NumberOfBytesForNativePc : Z;
  NumberOfBytesForRegisterMask : Z;
  GetStackMaskSize : Z;
  ComputeStackMapInlineInfoOffset : Z;
  ComputeStackMapDexRegisterMapOffset : Z;
  ComputeStackMapDexPcOffset : Z;
  ComputeStackMapNativePcOffset : Z;
  ComputeStackMapRegisterMaskOffset : Z;
  GetDexRegisterLocationCatalog : DexRegisterLocationCatalog.t;
  GetNumberOfDexRegisterLocationCatalogEntries : Z
}.

(** Modelled from the spec: [CodeInfo::EncodingSizeInBytes] (stack_map.h
    is not among the sources), "the smallest width in {0,1,2,3,4} whose
    capacity covers a given maximum", 0 "only when the maximum is 0".
    A maximum of [2 ^ 32] or more has no such width; 4 is returned. *)
Definition EncodingSizeInBytes (max_element : Z) : Z :=
  if max_element =? 0 then 0
  else if max_element <? 2 ^ 8 then 1
  else if max_element <? 2 ^ 16 then 2
  else if max_element <? 2 ^ 24 then 3
  else 4.

End CodeInfo.

(** ** Safepoint records *)

Module StackMap.

Record t : Type := Build_stack_map { region_ : MemoryRegion.t }.

(** Modelled from the spec: the "none" sentinels of the variable-map
    offset and of the inline-info offset (stack_map.h is not among the
    sources), the "absent" value [LoadAt] decodes an all-ones field to. *)
Definition kNoDexRegisterMap : Z := static_cast uint32_t (-1).
Definition kNoInlineInfo : Z := static_cast uint32_t (-1).

Section WithBuild.
Context `{Build}.

Local Notation "a +% b" := (size_t (a + b)) (at level 50, left associativity).

(** The record after a store into its region: the setters write through
    [region_], so they return the record over the bytes after the store. *)
Definition store (region : Result MemoryRegion.t) : Result t :=
  region <- region ;; Ok {| region_ := region |}.

Definition GetDexPc (this : t) (info : CodeInfo.t) : Result Z :=
  LoadAt (region_ this) (CodeInfo.NumberOfBytesForDexPc info)
         (CodeInfo.ComputeStackMapDexPcOffset info) false.

Definition SetDexPc (this : t) (info : CodeInfo.t) (dex_pc : Z) : Result t :=
  store (StoreAt (region_ this) (CodeInfo.NumberOfBytesForDexPc info)
                 (CodeInfo.ComputeStackMapDexPcOffset info) dex_pc).

Definition GetNativePcOffset (this : t) (info : CodeInfo.t) : Result Z :=
  LoadAt (region_ this) (CodeInfo.NumberOfBytesForNativePc info)
         (CodeInfo.ComputeStackMapNativePcOffset info) false.

Definition SetNativePcOffset (this : t) (info : CodeInfo.t) (native_pc_offset : Z)
  : Result t :=
  store (StoreAt (region_ this) (CodeInfo.NumberOfBytesForNativePc info)
                 (CodeInfo.ComputeStackMapNativePcOffset info) native_pc_offset).

Definition GetDexRegisterMapOffset (this : t) (info : CodeInfo.t) : Result Z :=
  LoadAt (region_ this)
         (CodeInfo.NumberOfBytesForDexRegisterMap info)
         (CodeInfo.ComputeStackMapDexRegisterMapOffset info)
         (* check_max *) true.

Definition SetDexRegisterMapOffset (this : t) (info : CodeInfo.t) (offset : Z)
  : Result t :=
  store (StoreAt (region_ this)
                 (CodeInfo.NumberOfBytesForDexRegisterMap info)
                 (CodeInfo.ComputeStackMapDexRegisterMapOffset info)
                 offset).

Definition GetInlineDescriptorOffset (this : t) (info : CodeInfo.t) : Result Z :=
  if negb (CodeInfo.HasInlineInfo info) then Ok kNoInlineInfo
  else
    LoadAt (region_ this)
           (CodeInfo.NumberOfBytesForInlineInfo info)
           (CodeInfo.ComputeStackMapInlineInfoOffset info)
           (* check_max *) true.

Definition SetInlineDescriptorOffset (this : t) (info : CodeInfo.t) (offset : Z)
  : Result t :=
  DCHECK (CodeInfo.HasInlineInfo info) ;;;
  store (StoreAt (region_ this)
                 (CodeInfo.NumberOfBytesForInlineInfo info)
                 (CodeInfo.ComputeStackMapInlineInfoOffset info)
                 offset).

Definition GetRegisterMask (this : t) (info : CodeInfo.t) : Result Z :=
  LoadAt (region_ this)
         (CodeInfo.NumberOfBytesForRegisterMask info)
         (CodeInfo.ComputeStackMapRegisterMaskOffset info) false.

Definition SetRegisterMask (this : t) (info : CodeInfo.t) (mask : Z) : Result t :=
  store (StoreAt (region_ this)
                 (CodeInfo.NumberOfBytesForRegisterMask info)
                 (CodeInfo.ComputeStackMapRegisterMaskOffset info)
                 mask).

Definition ComputeStackMapSizeInternal
           (stack_mask_size
            number_of_bytes_for_inline_info
            number_of_bytes_for_dex_map
            number_of_bytes_for_dex_pc
            number_of_bytes_for_native_pc
            number_of_bytes_for_register_mask : Z) : Z :=
  stack_mask_size
  +% number_of_bytes_for_inline_info
  +% number_of_bytes_for_dex_map
  +% number_of_bytes_for_dex_pc
  +% number_of_bytes_for_native_pc
  +% number_of_bytes_for_register_mask.

Definition ComputeStackMapSize
           (stack_mask_size
            inline_info_size
            dex_register_map_size
            dex_pc_max
            native_pc_max
            register_mask_max : Z) : Z :=
  ComputeStackMapSizeInternal
    stack_mask_size
    (if inline_info_size =? 0
     then 0
          (* + 1 to also encode kNoInlineInfo. *)
     else CodeInfo.EncodingSizeInBytes (inline_info_size +% dex_register_map_size +% 1))
    (* + 1 to also encode kNoDexRegisterMap. *)
    (CodeInfo.EncodingSizeInBytes (dex_register_map_size +% 1))
    (CodeInfo.EncodingSizeInBytes dex_pc_max)
    (CodeInfo.EncodingSizeInBytes native_pc_max)
    (CodeInfo.EncodingSizeInBytes register_mask_max).

End WithBuild.

(** [ComputeStackMapStackMaskOffset] is the one accessor of the header
    used here that [CodeInfo.t] does not carry; it is passed in. *)
Definition GetStackMask (ComputeStackMapStackMaskOffset : CodeInfo.t -> Z)
           (this : t) (info : CodeInfo.t) : Result MemoryRegion.t :=
  MemoryRegion.Subregion (region_ this)
                         (ComputeStackMapStackMaskOffset info)
                         (CodeInfo.GetStackMaskSize info).

(** *** The integer fields of a record

    The five fields the accessors above read and write, so that a
    property of all accessors is stated once.  [GetField] and [SetField]
    only dispatch to the accessors. *)
Inductive Field : Type :=
| DexPc
| NativePcOffset
| DexRegisterMapOffset
| InlineDescriptorOffset
| RegisterMask.

Definition NumberOfBytes (info : CodeInfo.t) (field : Field) : Z :=
  match field with
  | DexPc => CodeInfo.NumberOfBytesForDexPc info
  | NativePcOffset => CodeInfo.NumberOfBytesForNativePc info
  | DexRegisterMapOffset => CodeInfo.NumberOfBytesForDexRegisterMap info
  | InlineDescriptorOffset => CodeInfo.NumberOfBytesForInlineInfo info
  | RegisterMask => CodeInfo.NumberOfBytesForRegisterMask info
  end.

Definition FieldOffset (info : CodeInfo.t) (field : Field) : Z :=
  match field with
  | DexPc => CodeInfo.ComputeStackMapDexPcOffset info
  | NativePcOffset => CodeInfo.ComputeStackMapNativePcOffset info
  | DexRegisterMapOffset => CodeInfo.ComputeStackMapDexRegisterMapOffset info
  | InlineDescriptorOffset => CodeInfo.ComputeStackMapInlineInfoOffset info
  | RegisterMask => CodeInfo.ComputeStackMapRegisterMaskOffset info
  end.

(** The fields whose getter asks [LoadAt] for the sentinel check. *)
Definition checks_max (field : Field) : bool :=
  match field with
  | DexRegisterMapOffset | InlineDescriptorOffset => true
  | DexPc | NativePcOffset | RegisterMask => false
  end.

(** The inline-info offset is guarded by [HasInlineInfo]; the other fields
    are always there. *)
Definition present (info : CodeInfo.t) (field : Field) : bool :=
  match field with
  | InlineDescriptorOffset => CodeInfo.HasInlineInfo info
  | _ => true
  end.

Section Fields.
Context `{Build}.

Definition GetField (this : t) (info : CodeInfo.t) (field : Field) : Result Z :=
  match field with
  | DexPc => GetDexPc this info
  | NativePcOffset => GetNativePcOffset this info
  | DexRegisterMapOffset => GetDexRegisterMapOffset this info
  | InlineDescriptorOffset => GetInlineDescriptorOffset this info
  | RegisterMask => GetRegisterMask this info
  end.

Definition SetField (this : t) (info : CodeInfo.t) (field : Field) (value : Z)
  : Result t :=
  match field with
  | DexPc => SetDexPc this info value
  | NativePcOffset => SetNativePcOffset this info value
  | DexRegisterMapOffset => SetDexRegisterMapOffset this info value
  | InlineDescriptorOffset => SetInlineDescriptorOffset this info value
  | RegisterMask => SetRegisterMask this info value
  end.

End Fields.

End StackMap.

(** ** Variable maps *)

Module DexRegisterMap.

(** Modelled from the spec: [DexRegisterMap] (stack_map.h is not among
    the sources), "a live-bit bitmap (one bit per interpreter variable,
    ordered by variable number) followed by one variable-width
    catalog-index field per live variable only, stored in ascending
    variable-number order". *)
Record t : Type := Build_map {
  live_bit_mask : list bool;
  location_mapping_data : list Z
}.

(** Modelled from the spec: [isLive(variableNumber)]. *)
Definition IsDexRegisterLive (this : t) (dex_register_number : Z) : bool :=
  nth (Z.to_nat dex_register_number) (live_bit_mask this) false.

Section WithBuild.
Context `{Build}.

(** Modelled from the spec: [catalogIndexFor], "computed by scanning
    the live-bit bitmap from variable 0 and counting how many live bits
    precede [variableNumber] - that count is the ordinal position of
    the stored catalog-index field, since dead variables store
    nothing".  A dead variable resolves to the reserved index. *)
Definition GetLocationCatalogEntryIndex (this : t)
           (dex_register_number number_of_dex_registers
            number_of_location_catalog_entries : Z) : Result Z :=
  if negb (IsDexRegisterLive this dex_register_number) then
    Ok DexRegisterLocationCatalog.kNoLocationEntryIndex
  else
    let preceding :=
      count_occ bool_dec
        (firstn (Z.to_nat dex_register_number) (live_bit_mask this)) true in
    match nth_error (location_mapping_data this) preceding with
    | Some index => Ok index
    | None => Abort OutOfBounds
    end.

Definition GetLocationInternalKind (this : t)
           (dex_register_number number_of_dex_registers : Z)
           (code_info : CodeInfo.t) : Traced DexRegisterLocation.Kind :=
  let dex_register_location_catalog :=
    CodeInfo.GetDexRegisterLocationCatalog code_info in
  match GetLocationCatalogEntryIndex this
          dex_register_number
          number_of_dex_registers
          (CodeInfo.GetNumberOfDexRegisterLocationCatalogEntries code_info) with
  | Ok location_catalog_entry_index =>
      DexRegisterLocationCatalog.GetLocationInternalKind
        dex_register_location_catalog location_catalog_entry_index
  | Abort f => traced (Abort f) []
  end.

Definition GetDexRegisterLocation (this : t)
           (dex_register_number number_of_dex_registers : Z)
           (code_info : CodeInfo.t) : Traced DexRegisterLocation.t :=
  let dex_register_location_catalog :=
    CodeInfo.GetDexRegisterLocationCatalog code_info in
  match GetLocationCatalogEntryIndex this
          dex_register_number
          number_of_dex_registers
          (CodeInfo.GetNumberOfDexRegisterLocationCatalogEntries code_info) with
  | Ok location_catalog_entry_index =>
      DexRegisterLocationCatalog.GetDexRegisterLocation
        dex_register_location_catalog location_catalog_entry_index
  | Abort f => traced (Abort f) []
  end.

End WithBuild.

End DexRegisterMap.


(** ** Sample tables *)

(** The header of a method without inlining: no inline-info field, a
    one-byte variable-map offset after a one-byte stack mask. *)
Definition header_without_inlining : CodeInfo.t :=
  {| CodeInfo.HasInlineInfo := false;
     CodeInfo.NumberOfBytesForInlineInfo := 0;
     CodeInfo.NumberOfBytesForDexRegisterMap := 1;
     CodeInfo.NumberOfBytesForDexPc := 1;
     CodeInfo.NumberOfBytesForNativePc := 1;
     CodeInfo.NumberOfBytesForRegisterMask := 1;
     CodeInfo.GetStackMaskSize := 1;
     CodeInfo.ComputeStackMapInlineInfoOffset := 1;
     CodeInfo.ComputeStackMapDexRegisterMapOffset := 1;
     CodeInfo.ComputeStackMapDexPcOffset := 2;
     CodeInfo.ComputeStackMapNativePcOffset := 3;
     CodeInfo.ComputeStackMapRegisterMaskOffset := 4;
     CodeInfo.GetDexRegisterLocationCatalog :=
       [ {| DexRegisterLocation.GetInternalKind := DexRegisterLocation.kInRegister;
            DexRegisterLocation.GetValue := 1 |};
         {| DexRegisterLocation.GetInternalKind := DexRegisterLocation.kInStack;
            DexRegisterLocation.GetValue := 4 |} ];
     CodeInfo.GetNumberOfDexRegisterLocationCatalogEntries := 2 |}.

Definition sample_stack_map : StackMap.t :=
  {| StackMap.region_ := [Byte.x01; Byte.xff; Byte.x10; Byte.x20; Byte.x03] |}.

(** The header of a method with inlining: a one-byte stack mask, then
    a two-byte inline-info offset, a two-byte variable-map offset, and one
    byte each for the instruction offset, the native offset and the
    register mask. *)
Definition header_with_inlining : CodeInfo.t :=
  {| CodeInfo.HasInlineInfo := true;
     CodeInfo.NumberOfBytesForInlineInfo := 2;
     CodeInfo.NumberOfBytesForDexRegisterMap := 2;
     CodeInfo.NumberOfBytesForDexPc := 1;
     CodeInfo.NumberOfBytesForNativePc := 1;
     CodeInfo.NumberOfBytesForRegisterMask := 1;
     CodeInfo.GetStackMaskSize := 1;
     CodeInfo.ComputeStackMapInlineInfoOffset := 1;
     CodeInfo.ComputeStackMapDexRegisterMapOffset := 3;
     CodeInfo.ComputeStackMapDexPcOffset := 5;
     CodeInfo.ComputeStackMapNativePcOffset := 6;
     CodeInfo.ComputeStackMapRegisterMaskOffset := 7;
     CodeInfo.GetDexRegisterLocationCatalog := [];
     CodeInfo.GetNumberOfDexRegisterLocationCatalogEntries := 0 |}.

Definition sample_stack_map_with_inlining : StackMap.t :=
  {| StackMap.region_ :=
       [Byte.x05; Byte.xff; Byte.xff; Byte.x10; Byte.x00; Byte.x2a; Byte.x40; Byte.x03] |}.

(** Two variables, the first live in catalog entry 0, the second dead. *)
Definition sample_dex_register_map : DexRegisterMap.t :=
  {| DexRegisterMap.live_bit_mask := [true; false];
     DexRegisterMap.location_mapping_data := [0] |}.

(** * Properties *)

(** ** Little-endian byte lists *)

Lemma le_combine_cons (h : byte) (t : list byte) :
  le_combine (h :: t) = byte.unsigned h + 2 ^ 8 * le_combine t.
Proof.
  change (le_combine (h :: t))
    with (Z.lor (byte.unsigned h) (Z.shiftl (le_combine t) 8)).
  pose proof (byte.unsigned_range h) as Hh.
  pose proof (Z.add_lor_land (byte.unsigned h) (Z.shiftl (le_combine t) 8)) as Hadd.
  assert (Hland : Z.land (byte.unsigned h) (Z.shiftl (le_combine t) 8) = 0).
  { apply Z.bits_inj'; intros n Hn.
    rewrite Z.land_spec, Z.bits_0.
    destruct (Z.ltb_spec n 8).
    - rewrite Z.shiftl_spec_low by lia. apply andb_false_r.
    - rewrite (Z.bits_above_log2 (byte.unsigned h)); [reflexivity|lia|].
      destruct (Z.eq_dec (byte.unsigned h) 0) as [->|]; [simpl; lia|].
      apply Z.log2_lt_pow2; [lia|].
      apply Z.lt_le_trans with (2 ^ 8); [lia|].
      apply Z.pow_le_mono_r; lia. }
  rewrite Hland in Hadd. rewrite Z.shiftl_mul_pow2 in * by lia. lia.
Qed.

Lemma le_split_S (n : nat) (v : Z) :
  le_split (S n) v = byte.of_Z v :: le_split n (Z.shiftr v 8).
Proof. reflexivity. Qed.

Lemma byte_of_Z_mod (v m : Z) :
  (2 ^ 8 | m) -> byte.of_Z (v mod m) = byte.of_Z v.
Proof.
  intros Hdiv. apply byte.unsigned_inj.
  rewrite !byte.unsigned_of_Z. unfold byte.wrap.
  apply Z.mod_mod_divide, Hdiv.
Qed.

(** The three bytes [StoreAt] writes for a 3-byte field are the
    little-endian bytes of the value. *)
Lemma le_split_low_high (value : Z) :
  le_split 2 (Low16Bits value) ++ le_split 1 (High16Bits value) = le_split 3 value.
Proof.
  unfold Low16Bits, High16Bits, static_cast, kBitsPerByte.
  cbv [le_split app sizeof].
  change (8 * Z.of_nat 2) with 16.
  rewrite !Z.shiftr_shiftr by lia. change (8 + 8) with 16.
  f_equal; [|f_equal; [|f_equal]].
  - apply byte_of_Z_mod. exists (2 ^ 8). reflexivity.
  - apply byte.unsigned_inj. rewrite !byte.unsigned_of_Z. unfold byte.wrap.
    rewrite !Z.shiftr_div_pow2 by lia.
    change (2 ^ 16) with (2 ^ 8 * 2 ^ 8).
    rewrite Z.rem_mul_r by lia.
    rewrite (Z.mul_comm (2 ^ 8)), Z.div_add by lia.
    rewrite (Z.div_small (value mod 2 ^ 8)) by (apply Z.mod_pos_bound; lia).
    rewrite Z.add_0_l. apply Z.mod_mod; lia.
  - apply byte_of_Z_mod. exists (2 ^ 8). reflexivity.
Qed.

(** ** Regions split at an access

    A region that contains [n] bytes at [offset] is [a ++ b ++ c] with
    [a] of length [offset] and [b] of length [n]; loads and stores are
    then read off the three parts. *)

Lemma region_split (region : MemoryRegion.t) (offset : Z) (n : nat) :
  0 <= offset -> offset + Z.of_nat n <= MemoryRegion.size region ->
  exists a b c,
    region = a ++ b ++ c /\ Z.of_nat (length a) = offset /\ length b = n.
Proof.
  unfold MemoryRegion.size. intros H0 Hle.
  exists (firstn (Z.to_nat offset) region),
         (firstn n (skipn (Z.to_nat offset) region)),
         (skipn n (skipn (Z.to_nat offset) region)).
  rewrite !firstn_skipn. repeat split.
  - rewrite length_firstn. lia.
  - rewrite length_firstn, length_skipn. lia.
Qed.

Lemma contains_split (a b c : MemoryRegion.t) (n : nat) :
  (n <= length b)%nat ->
  MemoryRegion.contains (a ++ b ++ c) (Z.of_nat (length a)) n = true.
Proof.
  intros Hn. unfold MemoryRegion.contains, MemoryRegion.size.
  rewrite !length_app. apply andb_true_intro. split.
  - apply Z.leb_le. lia.
  - apply Z.leb_le. lia.
Qed.

Lemma LoadUnaligned_split (T : UnsignedType) (a b c : MemoryRegion.t) :
  length b = sizeof T ->
  MemoryRegion.LoadUnaligned T (a ++ b ++ c) (Z.of_nat (length a)) = Ok (le_combine b).
Proof.
  intros Hb. unfold MemoryRegion.LoadUnaligned.
  rewrite contains_split by lia.
  rewrite Nat2Z.id, List.skipn_app_r by reflexivity.
  rewrite List.firstn_app_l by (symmetry; exact Hb). reflexivity.
Qed.

Lemma StoreUnaligned_split (T : UnsignedType) (a b c : MemoryRegion.t) (value : Z) :
  length b = sizeof T ->
  MemoryRegion.StoreUnaligned T (a ++ b ++ c) (Z.of_nat (length a)) value
  = Ok (a ++ le_split (sizeof T) value ++ c).
Proof.
  intros Hb. unfold MemoryRegion.StoreUnaligned.
  rewrite contains_split by lia.
  rewrite Nat2Z.id, List.firstn_app_l by reflexivity.
  rewrite List.skipn_app_r2 by reflexivity.
  rewrite List.skipn_app_r by (symmetry; exact Hb). reflexivity.
Qed.

(** Outside the bytes that were replaced, the region reads as before. *)
Lemma nth_error_splice (a b b' c : MemoryRegion.t) (i : nat) :
  length b' = length b ->
  (i < length a)%nat \/ (length a + length b <= i)%nat ->
  nth_error (a ++ b' ++ c) i = nth_error (a ++ b ++ c) i.
Proof.
  intros Hlen [Hlt | Hge].
  - rewrite !nth_error_app1 by exact Hlt. reflexivity.
  - rewrite !(nth_error_app2 a) by lia.
    rewrite !nth_error_app2 by lia. rewrite Hlen. reflexivity.
Qed.

(** ** The codec on a split region *)

Section CodecProperties.
Context `{Build}.

Lemma DCHECK_true : DCHECK true = Ok tt.
Proof. unfold DCHECK. rewrite andb_false_r. reflexivity. Qed.

Lemma DCHECK_false : DCHECK false = if kEnableDChecks then Abort DCheckFailure else Ok tt.
Proof. unfold DCHECK. rewrite andb_true_r. reflexivity. Qed.

Lemma size_t_small (v : Z) : 0 <= v < 2 ^ size_t_bits -> size_t v = v.
Proof. apply Z.mod_small. Qed.

Lemma LoadAt_0 region offset check_max :
  LoadAt region 0 offset check_max = (DCHECK (negb check_max) ;;; Ok 0).
Proof. reflexivity. Qed.

Lemma LoadAt_1 region offset check_max :
  LoadAt region 1 offset check_max =
  (value <- MemoryRegion.LoadUnaligned uint8_t region offset ;;
   if check_max && (value =? 0xFF) then Ok (static_cast uint32_t (-1)) else Ok value).
Proof. reflexivity. Qed.

Lemma LoadAt_2 region offset check_max :
  LoadAt region 2 offset check_max =
  (value <- MemoryRegion.LoadUnaligned uint16_t region offset ;;
   if check_max && (value =? 0xFFFF) then Ok (static_cast uint32_t (-1)) else Ok value).
Proof. reflexivity. Qed.

Lemma LoadAt_3 region offset check_max :
  LoadAt region 3 offset check_max =
  (low <- MemoryRegion.LoadUnaligned uint16_t region offset ;;
   high <- MemoryRegion.LoadUnaligned uint8_t region (size_t (offset + 2)) ;;
   let value := static_cast uint32_t (Z.shiftl high 16 + low) in
   if check_max && (value =? 0xFFFFFF) then Ok (static_cast uint32_t (-1)) else Ok value).
Proof. reflexivity. Qed.

Lemma LoadAt_4 region offset check_max :
  LoadAt region 4 offset check_max =
  (DCHECK true ;;; MemoryRegion.LoadUnaligned uint32_t region offset).
Proof. reflexivity. Qed.

Lemma StoreAt_0 region offset value :
  StoreAt region 0 offset value = (DCHECK (value =? 0) ;;; Ok region).
Proof. reflexivity. Qed.

Lemma StoreAt_1 region offset value :
  StoreAt region 1 offset value = MemoryRegion.StoreUnaligned uint8_t region offset value.
Proof. reflexivity. Qed.

Lemma StoreAt_2 region offset value :
  StoreAt region 2 offset value = MemoryRegion.StoreUnaligned uint16_t region offset value.
Proof. reflexivity. Qed.

Lemma StoreAt_3 region offset value :
  StoreAt region 3 offset value =
  (region <- MemoryRegion.StoreUnaligned uint16_t region offset (Low16Bits value) ;;
   MemoryRegion.StoreUnaligned uint8_t region (size_t (offset + 2)) (High16Bits value)).
Proof. reflexivity. Qed.

Lemma StoreAt_4 region offset value :
  StoreAt region 4 offset value =
  (region <- MemoryRegion.StoreUnaligned uint32_t region offset value ;;
   DCHECK true ;;; Ok region).
Proof. reflexivity. Qed.

(** A field width the header can hold. *)
Lemma width_cases (w : Z) : 1 <= w <= 4 -> w = 1 \/ w = 2 \/ w = 3 \/ w = 4.
Proof. lia. Qed.

Lemma le_combine_3 (x0 x1 x2 : byte) :
  static_cast uint32_t (Z.shiftl (le_combine [x2]) 16 + le_combine [x0; x1])
  = le_combine [x0; x1; x2].
Proof.
  rewrite !le_combine_cons, le_combine_nil, Z.shiftl_mul_pow2 by lia.
  pose proof (byte.unsigned_range x0). pose proof (byte.unsigned_range x1).
  pose proof (byte.unsigned_range x2).
  unfold static_cast.
  change (2 ^ (kBitsPerByte * Z.of_nat (sizeof uint32_t))) with 4294967296.
  rewrite Z.mod_small; lia.
Qed.

(** The second access of a 3-byte field lands two bytes after the first. *)
Lemma second_offset (a c : MemoryRegion.t) (x0 x1 x2 : byte) :
  MemoryRegion.size (a ++ [x0; x1; x2] ++ c) < 2 ^ size_t_bits ->
  size_t (Z.of_nat (length a) + 2) = Z.of_nat (length (a ++ [x0; x1])).
Proof.
  unfold MemoryRegion.size. rewrite !length_app. cbn [length]. intros Hfit.
  rewrite size_t_small by lia. lia.
Qed.

Lemma LoadAt_split (a b c : MemoryRegion.t) (w : Z) (check_max : bool) :
  1 <= w <= 4 -> Z.of_nat (length b) = w ->
  MemoryRegion.size (a ++ b ++ c) < 2 ^ size_t_bits ->
  LoadAt (a ++ b ++ c) w (Z.of_nat (length a)) check_max
  = Ok (if check_max && (le_combine b =? all_ones w)
        then static_cast uint32_t (-1) else le_combine b).
Proof.
  intros Hw Hb Hfit.
  destruct (width_cases w Hw) as [-> | [-> | [-> | ->]]].
  - rewrite LoadAt_1, LoadUnaligned_split by (cbn; lia). cbn [bind].
    change (all_ones 1) with 0xFF.
    destruct (check_max && (le_combine b =? 0xFF)); reflexivity.
  - rewrite LoadAt_2, LoadUnaligned_split by (cbn; lia). cbn [bind].
    change (all_ones 2) with 0xFFFF.
    destruct (check_max && (le_combine b =? 0xFFFF)); reflexivity.
  - destruct b as [|x0 [|x1 [|x2 [|]]]]; cbn [length] in Hb; try lia.
    rewrite LoadAt_3.
    change (a ++ [x0; x1; x2] ++ c) with (a ++ [x0; x1] ++ [x2] ++ c) at 1.
    rewrite LoadUnaligned_split by reflexivity. cbn [bind].
    rewrite (second_offset a c x0 x1 x2 Hfit).
    replace (a ++ [x0; x1; x2] ++ c) with ((a ++ [x0; x1]) ++ [x2] ++ c)
      by (rewrite <- app_assoc; reflexivity).
    rewrite LoadUnaligned_split by reflexivity. cbn [bind].
    cbv zeta. rewrite le_combine_3.
    change (all_ones 3) with 0xFFFFFF.
    destruct (check_max && (le_combine [x0; x1; x2] =? 0xFFFFFF)); reflexivity.
  - rewrite LoadAt_4, DCHECK_true. cbn [bind].
    rewrite LoadUnaligned_split by (cbn; lia).
    destruct check_max; [|reflexivity]. cbn [andb].
    destruct (Z.eqb_spec (le_combine b) (all_ones 4)) as [-> |]; reflexivity.
Qed.

Lemma StoreAt_split (a b c : MemoryRegion.t) (w value : Z) :
  1 <= w <= 4 -> Z.of_nat (length b) = w ->
  MemoryRegion.size (a ++ b ++ c) < 2 ^ size_t_bits ->
  StoreAt (a ++ b ++ c) w (Z.of_nat (length a)) value
  = Ok (a ++ le_split (Z.to_nat w) value ++ c).
Proof.
  intros Hw Hb Hfit.
  destruct (width_cases w Hw) as [-> | [-> | [-> | ->]]].
  - rewrite StoreAt_1, StoreUnaligned_split by (cbn; lia). reflexivity.
  - rewrite StoreAt_2, StoreUnaligned_split by (cbn; lia). reflexivity.
  - destruct b as [|x0 [|x1 [|x2 [|]]]]; cbn [length] in Hb; try lia.
    rewrite StoreAt_3.
    rewrite (second_offset a c x0 x1 x2 Hfit).
    change (a ++ [x0; x1; x2] ++ c) with (a ++ [x0; x1] ++ [x2] ++ c).
    rewrite StoreUnaligned_split by reflexivity. cbn [bind].
    rewrite length_app. cbn [length].
    replace (length a + 2)%nat
      with (length (a ++ le_split (sizeof uint16_t) (Low16Bits value)))
      by (rewrite length_app, length_le_split; reflexivity).
    rewrite app_assoc, StoreUnaligned_split by reflexivity.
    rewrite <- app_assoc. f_equal. f_equal.
    rewrite app_assoc. f_equal. apply le_split_low_high.
  - rewrite StoreAt_4, StoreUnaligned_split by (cbn; lia). cbn [bind].
    rewrite DCHECK_true. reflexivity.
Qed.

End CodecProperties.

(** ** Storing, then loading *)

(** What [LoadAt] returns for the field [StoreAt] has just written: the
    value reduced to the field's width, or "absent" when sentinel checking
    meets the all-ones pattern. *)
Lemma StoreAt_then_LoadAt `{Build} (region : MemoryRegion.t) (w offset value : Z)
      (check_max : bool) :
  1 <= w <= 4 ->
  0 <= offset -> offset + w <= MemoryRegion.size region ->
  MemoryRegion.size region < 2 ^ size_t_bits ->
  exists region',
    StoreAt region w offset value = Ok region'
    /\ MemoryRegion.size region' = MemoryRegion.size region
    /\ LoadAt region' w offset check_max
       = Ok (if check_max && (value mod 2 ^ (kBitsPerByte * w) =? all_ones w)
             then static_cast uint32_t (-1)
             else value mod 2 ^ (kBitsPerByte * w)).
Proof.
  intros Hw Hoff Hin Hfit.
  destruct (region_split region offset (Z.to_nat w)) as (a & b & c & -> & <- & Hb);
    [lia | lia |].
  assert (Hlen : length (le_split (Z.to_nat w) value) = length b)
    by (rewrite length_le_split; symmetry; exact Hb).
  assert (Hsize : MemoryRegion.size (a ++ le_split (Z.to_nat w) value ++ c)
                  = MemoryRegion.size (a ++ b ++ c)).
  { unfold MemoryRegion.size. rewrite !length_app, Hlen. reflexivity. }
  exists (a ++ le_split (Z.to_nat w) value ++ c). split; [|split].
  - apply StoreAt_split; [exact Hw | lia | exact Hfit].
  - exact Hsize.
  - rewrite LoadAt_split; [| exact Hw | rewrite length_le_split; lia | lia ].
    rewrite le_combine_split.
    replace (Z.of_nat (Z.to_nat w) * 8) with (kBitsPerByte * w)
      by (unfold kBitsPerByte; lia).
    reflexivity.
Qed.

(** C1. Round trip: for every width [w] in 0..4 and every value [v]
    representable in [w] bytes, the all-ones pattern of the width excepted
    when sentinel checking is requested, [StoreAt] followed by [LoadAt] at
    the same width and offset returns exactly [v].  (For width 0 under
    sentinel checking no value is left: the only value of zero bytes is the
    empty all-ones pattern.) *)
Theorem StoreAt_LoadAt_round_trip `{Build} (region : MemoryRegion.t) (w offset v : Z)
        (check_max : bool) :
  0 <= w <= 4 ->
  0 <= v < 2 ^ (kBitsPerByte * w) ->
  (check_max = true -> v <> all_ones w) ->
  0 <= offset -> offset + w <= MemoryRegion.size region ->
  MemoryRegion.size region < 2 ^ size_t_bits ->
  exists region',
    StoreAt region w offset v = Ok region'
    /\ LoadAt region' w offset check_max = Ok v.
Proof.
  intros Hw Hv Hsentinel Hoff Hin Hfit.
  destruct (Z.eq_dec w 0) as [-> | Hw0].
  - change (2 ^ (kBitsPerByte * 0)) with 1 in Hv.
    assert (v = 0) as -> by lia.
    destruct check_max.
    + exfalso. apply Hsentinel; reflexivity.
    + exists region. rewrite StoreAt_0, LoadAt_0.
      change (0 =? 0) with true. change (negb false) with true.
      rewrite DCHECK_true. split; reflexivity.
  - destruct (StoreAt_then_LoadAt region w offset v check_max)
      as (region' & Hstore & _ & Hload); try lia.
    exists region'. split; [exact Hstore|].
    rewrite Hload, Z.mod_small by exact Hv.
    destruct check_max; [|reflexivity]. cbn [andb].
    destruct (Z.eqb_spec v (all_ones w)) as [Heq|]; [|reflexivity].
    exfalso. apply Hsentinel; [reflexivity | exact Heq].
Qed.

Lemma StoreAt_LoadAt_round_trip_witness :
  exists region',
    StoreAt (H := debug_build_64) [Byte.x00; Byte.x11; Byte.x22; Byte.x33; Byte.x44]
            3 1 0xFFFFFE = Ok region'
    /\ LoadAt (H := debug_build_64) region' 3 1 true = Ok 0xFFFFFE.
Proof.
  apply (@StoreAt_LoadAt_round_trip debug_build_64).
  - lia.
  - vm_compute. split; [discriminate | reflexivity].
  - intros _. vm_compute. discriminate.
  - lia.
  - vm_compute. discriminate.
  - vm_compute. reflexivity.
Defined.

(** C9. Truncation: for every width [w] in 1..3, [StoreAt] keeps only the
    low [8 * w] bits of a 32-bit value: the store succeeds, and loading the
    field back without sentinel checking returns [v mod 2 ^ (8 * w)]. *)
Theorem StoreAt_truncates `{Build} (region : MemoryRegion.t) (w offset v : Z) :
  1 <= w <= 3 ->
  0 <= v < 2 ^ 32 ->
  0 <= offset -> offset + w <= MemoryRegion.size region ->
  MemoryRegion.size region < 2 ^ size_t_bits ->
  exists region',
    StoreAt region w offset v = Ok region'
    /\ LoadAt region' w offset false = Ok (v mod 2 ^ (8 * w)).
Proof.
  intros Hw _ Hoff Hin Hfit.
  destruct (StoreAt_then_LoadAt region w offset v false)
    as (region' & Hstore & _ & Hload); try lia.
  exists region'. split; [exact Hstore | exact Hload].
Qed.

Lemma StoreAt_truncates_witness :
  exists region',
    StoreAt (H := release_build_32) [Byte.x00; Byte.x11; Byte.x22; Byte.x33]
            2 1 0x12345678 = Ok region'
    /\ LoadAt (H := release_build_32) region' 2 1 false = Ok (0x12345678 mod 2 ^ (8 * 2)).
Proof.
  apply (@StoreAt_truncates release_build_32).
  - lia.
  - vm_compute. split; [discriminate | reflexivity].
  - lia.
  - vm_compute. discriminate.
  - vm_compute. reflexivity.
Defined.

(** C8. Width 0 stores and loads nothing.  [LoadAt] with width 0 returns 0
    for every region and offset, touching no byte; a sentinel check is
    against its assertion, so a debug build aborts there.  [StoreAt] with
    width 0 asserts that the value is 0 and returns the region as it was. *)
Theorem width_0_stores_and_loads_nothing `{Build} (region : MemoryRegion.t)
        (offset value : Z) :
  LoadAt region 0 offset false = Ok 0
  /\ LoadAt region 0 offset true
     = (if kEnableDChecks then Abort DCheckFailure else Ok 0)
  /\ StoreAt region 0 offset 0 = Ok region
  /\ StoreAt region 0 offset value
     = (if kEnableDChecks && negb (value =? 0) then Abort DCheckFailure else Ok region).
Proof.
  repeat split.
  - rewrite LoadAt_0. cbn [negb]. rewrite DCHECK_true. reflexivity.
  - rewrite LoadAt_0. cbn [negb]. rewrite DCHECK_false.
    destruct kEnableDChecks; reflexivity.
  - rewrite StoreAt_0. change (0 =? 0) with true. rewrite DCHECK_true. reflexivity.
  - rewrite StoreAt_0. unfold DCHECK.
    destruct (kEnableDChecks && negb (value =? 0)); reflexivity.
Qed.

(** ** The sentinel *)

Lemma le_combine_all_ones (w : Z) :
  1 <= w <= 4 -> le_combine (repeat Byte.xff (Z.to_nat w)) = all_ones w.
Proof.
  intros Hw. destruct (width_cases w Hw) as [-> | [-> | [-> | ->]]]; reflexivity.
Qed.

Lemma le_split_absent (w : Z) :
  1 <= w <= 4 ->
  le_split (Z.to_nat w) (static_cast uint32_t (-1)) = repeat Byte.xff (Z.to_nat w).
Proof.
  intros Hw. destruct (width_cases w Hw) as [-> | [-> | [-> | ->]]];
    vm_compute; reflexivity.
Qed.

(** C2. Sentinel exclusivity: for every width [w] in 1..4, under sentinel
    checking a field holding the all-ones pattern of width [w] decodes to
    the "absent" value [0xFFFFFFFF], which for [w < 4] is not the numeric
    value [all_ones w] the same bytes decode to without the check; and
    storing "absent" writes that all-ones pattern. *)
Theorem all_ones_decodes_to_absent `{Build} (a b c : MemoryRegion.t) (w : Z) :
  1 <= w <= 4 ->
  Z.of_nat (length b) = w ->
  Z.of_nat (length a) + w + Z.of_nat (length c) < 2 ^ size_t_bits ->
  let ones := repeat Byte.xff (Z.to_nat w) in
  LoadAt (a ++ ones ++ c) w (Z.of_nat (length a)) true = Ok 0xFFFFFFFF
  /\ LoadAt (a ++ ones ++ c) w (Z.of_nat (length a)) false = Ok (all_ones w)
  /\ (w < 4 -> LoadAt (a ++ ones ++ c) w (Z.of_nat (length a)) true <> Ok (all_ones w))
  /\ StoreAt (a ++ b ++ c) w (Z.of_nat (length a)) 0xFFFFFFFF = Ok (a ++ ones ++ c).
Proof.
  intros Hw Hb Hfit ones.
  assert (Hones : Z.of_nat (length ones) = w)
    by (unfold ones; rewrite repeat_length; lia).
  assert (Hload : forall check_max,
             LoadAt (a ++ ones ++ c) w (Z.of_nat (length a)) check_max
             = Ok (if check_max then 0xFFFFFFFF else all_ones w)).
  { intros check_max. rewrite LoadAt_split; [| exact Hw | exact Hones |].
    - unfold ones. rewrite le_combine_all_ones, Z.eqb_refl by exact Hw.
      destruct check_max; reflexivity.
    - unfold MemoryRegion.size. rewrite !length_app. lia. }
  split; [apply (Hload true)|]. split; [apply (Hload false)|]. split.
  - intros Hlt. rewrite (Hload true). intros Heq. injection Heq as Heq.
    destruct (width_cases w Hw) as [-> | [-> | [-> | ->]]];
      try discriminate Heq. lia.
  - rewrite StoreAt_split; [| exact Hw | exact Hb |].
    + change 0xFFFFFFFF with (static_cast uint32_t (-1)).
      rewrite le_split_absent by exact Hw. reflexivity.
    + unfold MemoryRegion.size. rewrite !length_app. lia.
Qed.

Lemma all_ones_decodes_to_absent_witness :
  LoadAt (H := debug_build_64) ([Byte.x07] ++ [Byte.xff; Byte.xff] ++ [Byte.x09]) 2 1 true
  = Ok 0xFFFFFFFF
  /\ LoadAt (H := debug_build_64) ([Byte.x07] ++ [Byte.xff; Byte.xff] ++ [Byte.x09]) 2 1 false
     = Ok 0xFFFF
  /\ (2 < 4 ->
      LoadAt (H := debug_build_64) ([Byte.x07] ++ [Byte.xff; Byte.xff] ++ [Byte.x09]) 2 1 true
      <> Ok 0xFFFF)
  /\ StoreAt (H := debug_build_64) ([Byte.x07] ++ [Byte.x01; Byte.x02] ++ [Byte.x09]) 2 1
             0xFFFFFFFF
     = Ok ([Byte.x07] ++ [Byte.xff; Byte.xff] ++ [Byte.x09]).
Proof.
  apply (@all_ones_decodes_to_absent debug_build_64
           [Byte.x07] [Byte.x01; Byte.x02] [Byte.x09] 2).
  - lia.
  - reflexivity.
  - vm_compute. reflexivity.
Defined.

(** ** Three-byte fields *)

Lemma le_combine_low_high (x0 x1 x2 : byte) :
  Z.shiftl (le_combine [x2]) 16 + le_combine [x0; x1] = le_combine [x0; x1; x2].
Proof.
  rewrite !le_combine_cons, le_combine_nil, Z.shiftl_mul_pow2 by lia. lia.
Qed.

(** C7. Width 3: [StoreAt] replaces exactly three bytes, the two
    little-endian bytes of the low 16 bits at [offset] and one byte of the
    bits above them at [offset + 2], and leaves the byte at [offset + 3]
    alone; [LoadAt] returns [(high << 16) + low] of the two parts; every
    value below [2 ^ 24] is read back as stored. *)
Theorem width_3_low_then_high `{Build} (a c : MemoryRegion.t) (x0 x1 x2 : byte) (v : Z) :
  MemoryRegion.size (a ++ [x0; x1; x2] ++ c) < 2 ^ size_t_bits ->
  let stored := a ++ (le_split 2 (Low16Bits v) ++ le_split 1 (High16Bits v)) ++ c in
  StoreAt (a ++ [x0; x1; x2] ++ c) 3 (Z.of_nat (length a)) v = Ok stored
  /\ le_split 2 (Low16Bits v) ++ le_split 1 (High16Bits v)
     = [byte.of_Z v; byte.of_Z (Z.shiftr v 8); byte.of_Z (Z.shiftr v 16)]
  /\ LoadAt (a ++ [x0; x1; x2] ++ c) 3 (Z.of_nat (length a)) false
     = Ok (Z.shiftl (byte.unsigned x2) 16 + le_combine [x0; x1])
  /\ (0 <= v < 2 ^ 24 -> LoadAt stored 3 (Z.of_nat (length a)) false = Ok v).
Proof.
  intros Hfit stored.
  assert (Hstore : StoreAt (a ++ [x0; x1; x2] ++ c) 3 (Z.of_nat (length a)) v = Ok stored).
  { rewrite StoreAt_split by (try exact Hfit; cbn; lia).
    unfold stored. rewrite le_split_low_high. reflexivity. }
  split; [exact Hstore|]. split; [|split].
  - rewrite le_split_low_high. cbv [le_split].
    rewrite Z.shiftr_shiftr by lia. reflexivity.
  - rewrite LoadAt_split by (try exact Hfit; cbn; lia). cbn [andb].
    rewrite <- le_combine_low_high, le_combine_1. reflexivity.
  - intros Hv.
    destruct (StoreAt_then_LoadAt (a ++ [x0; x1; x2] ++ c) 3 (Z.of_nat (length a)) v false)
      as (region' & Hstore' & _ & Hload).
    + lia.
    + lia.
    + unfold MemoryRegion.size. rewrite !length_app. cbn [length]. lia.
    + exact Hfit.
    + rewrite Hstore in Hstore'. injection Hstore' as <-.
      rewrite Hload. cbn [andb]. rewrite Z.mod_small; [reflexivity | exact Hv].
Qed.

Lemma width_3_low_then_high_witness :
  let stored :=
    [Byte.x07] ++ (le_split 2 (Low16Bits 0xABCDEF) ++ le_split 1 (High16Bits 0xABCDEF))
               ++ [Byte.x09] in
  StoreAt (H := debug_build_64) ([Byte.x07] ++ [Byte.x01; Byte.x02; Byte.x03] ++ [Byte.x09])
          3 1 0xABCDEF = Ok stored
  /\ le_split 2 (Low16Bits 0xABCDEF) ++ le_split 1 (High16Bits 0xABCDEF)
     = [byte.of_Z 0xABCDEF; byte.of_Z (Z.shiftr 0xABCDEF 8); byte.of_Z (Z.shiftr 0xABCDEF 16)]
  /\ LoadAt (H := debug_build_64) ([Byte.x07] ++ [Byte.x01; Byte.x02; Byte.x03] ++ [Byte.x09])
            3 1 false
     = Ok (Z.shiftl (byte.unsigned Byte.x03) 16 + le_combine [Byte.x01; Byte.x02])
  /\ (0 <= 0xABCDEF < 2 ^ 24 -> LoadAt (H := debug_build_64) stored 3 1 false = Ok 0xABCDEF).
Proof.
  apply (@width_3_low_then_high debug_build_64
           [Byte.x07] [Byte.x09] Byte.x01 Byte.x02 Byte.x03 0xABCDEF).
  vm_compute. reflexivity.
Defined.

(** ** What a store leaves alone *)

Lemma contains_true (region : MemoryRegion.t) (offset : Z) (n : nat) :
  MemoryRegion.contains region offset n = true <->
  0 <= offset /\ offset + Z.of_nat n <= MemoryRegion.size region.
Proof.
  unfold MemoryRegion.contains. rewrite andb_true_iff, !Z.leb_le. reflexivity.
Qed.

Lemma StoreUnaligned_Ok (T : UnsignedType) (region region' : MemoryRegion.t)
      (offset value : Z) :
  MemoryRegion.StoreUnaligned T region offset value = Ok region' ->
  0 <= offset
  /\ offset + Z.of_nat (sizeof T) <= MemoryRegion.size region
  /\ length region' = length region
  /\ forall i : nat,
      ~ (offset <= Z.of_nat i < offset + Z.of_nat (sizeof T)) ->
      nth_error region' i = nth_error region i.
Proof.
  intros Hstore.
  assert (Hin : MemoryRegion.contains region offset (sizeof T) = true).
  { unfold MemoryRegion.StoreUnaligned in Hstore.
    destruct (MemoryRegion.contains region offset (sizeof T)); [reflexivity|discriminate]. }
  apply contains_true in Hin. destruct Hin as [Hoff Hin].
  split; [exact Hoff|]. split; [exact Hin|].
  destruct (region_split region offset (sizeof T) Hoff Hin) as (a & b & c & -> & <- & Hb).
  rewrite StoreUnaligned_split in Hstore by exact Hb. injection Hstore as <-.
  assert (Hlen : length (le_split (sizeof T) value) = length b)
    by (rewrite length_le_split; symmetry; exact Hb).
  split.
  - rewrite !length_app, Hlen. reflexivity.
  - intros i Hi. apply nth_error_splice; [exact Hlen | lia].
Qed.

Lemma StoreUnaligned_is_Ok (T : UnsignedType) (region : MemoryRegion.t) (offset value : Z) :
  0 <= offset -> offset + Z.of_nat (sizeof T) <= MemoryRegion.size region ->
  exists region', MemoryRegion.StoreUnaligned T region offset value = Ok region'.
Proof.
  intros Hoff Hin. unfold MemoryRegion.StoreUnaligned.
  rewrite (proj2 (contains_true region offset (sizeof T)) (conj Hoff Hin)).
  eexists. reflexivity.
Qed.

Lemma StoreAt_wide `{Build} (region : MemoryRegion.t) (w offset value : Z) :
  4 <= w ->
  StoreAt region w offset value =
  (region <- MemoryRegion.StoreUnaligned uint32_t region offset value ;;
   DCHECK (w =? 4) ;;; Ok region).
Proof.
  intros Hw. unfold StoreAt.
  destruct (Z.eqb_spec w 0); [lia|]. destruct (Z.eqb_spec w 1); [lia|].
  destruct (Z.eqb_spec w 2); [lia|]. destruct (Z.eqb_spec w 3); [lia|].
  reflexivity.
Qed.

Lemma narrow_or_wide (w : Z) : 0 <= w -> w = 0 \/ w = 1 \/ w = 2 \/ w = 3 \/ 4 <= w.
Proof. lia. Qed.

(** The bytes outside [offset, offset + w) survive every store that
    returns. *)
Lemma StoreAt_Ok `{Build} (region region' : MemoryRegion.t) (w offset value : Z) :
  0 <= w ->
  MemoryRegion.size region < 2 ^ size_t_bits ->
  StoreAt region w offset value = Ok region' ->
  length region' = length region
  /\ (forall i : nat,
        ~ (offset <= Z.of_nat i < offset + w) ->
        nth_error region' i = nth_error region i)
  /\ (w = 0 -> region' = region).
Proof.
  intros Hw Hfit Hstore.
  destruct (narrow_or_wide w Hw) as [-> | [-> | [-> | [-> | Hwide]]]].
  - rewrite StoreAt_0 in Hstore. destruct (DCHECK (value =? 0)); [|discriminate].
    injection Hstore as <-. repeat split.
  - rewrite StoreAt_1 in Hstore.
    destruct (StoreUnaligned_Ok _ _ _ _ _ Hstore) as (_ & _ & Hlen & Hframe).
    split; [exact Hlen|]. split; [|lia].
    intros i Hi. apply Hframe. cbn [sizeof]. lia.
  - rewrite StoreAt_2 in Hstore.
    destruct (StoreUnaligned_Ok _ _ _ _ _ Hstore) as (_ & _ & Hlen & Hframe).
    split; [exact Hlen|]. split; [|lia].
    intros i Hi. apply Hframe. cbn [sizeof]. lia.
  - rewrite StoreAt_3 in Hstore.
    destruct (MemoryRegion.StoreUnaligned uint16_t region offset (Low16Bits value))
      as [low_stored|] eqn:Hlow; [|discriminate]. cbn [bind] in Hstore.
    destruct (StoreUnaligned_Ok _ _ _ _ _ Hlow) as (Hoff & Hin & Hlen & Hframe).
    cbn [sizeof] in Hin. unfold MemoryRegion.size in Hin, Hfit.
    rewrite size_t_small in Hstore by lia.
    destruct (StoreUnaligned_Ok _ _ _ _ _ Hstore) as (_ & _ & Hlen' & Hframe').
    split; [congruence|]. split; [|lia].
    intros i Hi. rewrite Hframe', Hframe; [reflexivity | |]; cbn [sizeof]; lia.
  - rewrite StoreAt_wide in Hstore by exact Hwide.
    destruct (MemoryRegion.StoreUnaligned uint32_t region offset value)
      as [stored|] eqn:Hfour; [|discriminate]. cbn [bind] in Hstore.
    destruct (DCHECK (w =? 4)); [|discriminate]. injection Hstore as <-.
    destruct (StoreUnaligned_Ok _ _ _ _ _ Hfour) as (_ & _ & Hlen & Hframe).
    split; [exact Hlen|]. split; [|lia].
    intros i Hi. apply Hframe. cbn [sizeof]. lia.
Qed.

Lemma StoreAt_is_Ok `{Build} (region : MemoryRegion.t) (w offset value : Z) :
  0 <= w <= 4 ->
  0 <= offset -> offset + w <= MemoryRegion.size region ->
  MemoryRegion.size region < 2 ^ size_t_bits ->
  (w = 0 -> kEnableDChecks = true -> value = 0) ->
  exists region', StoreAt region w offset value = Ok region'.
Proof.
  intros Hw Hoff Hin Hfit Hzero.
  destruct (Z.eq_dec w 0) as [-> | Hw0].
  - exists region. rewrite StoreAt_0. unfold DCHECK.
    destruct kEnableDChecks; [|reflexivity].
    rewrite (Hzero eq_refl eq_refl). reflexivity.
  - destruct (StoreAt_then_LoadAt region w offset value false)
      as (region' & Hstore & _); try lia.
    exists region'. exact Hstore.
Qed.

(** C10. Frame: for every width [w], a [StoreAt (region, w, offset, value)]
    that returns keeps the size of the region, changes no byte outside
    [offset, offset + w), and for [w = 0] leaves the region as it was; and
    it does return for every width up to 4 whose bytes lie inside the
    region (for width 0 in a debug build, when the value is 0). *)
Theorem StoreAt_frame `{Build} (region : MemoryRegion.t) (w offset value : Z) :
  0 <= w ->
  MemoryRegion.size region < 2 ^ size_t_bits ->
  (forall region',
      StoreAt region w offset value = Ok region' ->
      length region' = length region
      /\ (forall i : nat,
            ~ (offset <= Z.of_nat i < offset + w) ->
            nth_error region' i = nth_error region i)
      /\ (w = 0 -> region' = region))
  /\ (w <= 4 ->
      0 <= offset -> offset + w <= MemoryRegion.size region ->
      (w = 0 -> kEnableDChecks = true -> value = 0) ->
      exists region', StoreAt region w offset value = Ok region').
Proof.
  intros Hw Hfit. split.
  - intros region' Hstore.
    apply (StoreAt_Ok region region' w offset value Hw Hfit Hstore).
  - intros Hw4 Hoff Hin Hzero.
    apply StoreAt_is_Ok; [lia | exact Hoff | exact Hin | exact Hfit | exact Hzero].
Qed.

Lemma StoreAt_frame_witness :
  let region := [Byte.x00; Byte.x11; Byte.x22; Byte.x33; Byte.x44] in
  (forall region',
      StoreAt (H := debug_build_64) region 3 1 0xABCDEF = Ok region' ->
      length region' = length region
      /\ (forall i : nat,
            ~ (1 <= Z.of_nat i < 1 + 3) ->
            nth_error region' i = nth_error region i)
      /\ (3 = 0 -> region' = region))
  /\ (3 <= 4 ->
      0 <= 1 -> 1 + 3 <= MemoryRegion.size region ->
      (3 = 0 -> kEnableDChecks (Build := debug_build_64) = true -> 0xABCDEF = 0) ->
      exists region', StoreAt (H := debug_build_64) region 3 1 0xABCDEF = Ok region').
Proof.
  apply (@StoreAt_frame debug_build_64).
  - lia.
  - vm_compute. reflexivity.
Defined.

(** ** The inline-info offset of a method without inlining *)

(** C3, as stated, fails: with [HasInlineInfo] false the getter does not
    trip a precondition, even in a debug build. *)
Lemma inline_getter_without_inline_info_returns :
  ~ (CodeInfo.HasInlineInfo header_without_inlining = false ->
     is_Ok (StackMap.GetInlineDescriptorOffset (H := debug_build_64)
              sample_stack_map header_without_inlining) = false
     /\ is_Ok (StackMap.SetInlineDescriptorOffset (H := debug_build_64)
                 sample_stack_map header_without_inlining 0) = false).
Proof.
  intros Hclaim. destruct (Hclaim eq_refl) as [Hgetter _].
  vm_compute in Hgetter. discriminate Hgetter.
Qed.

(** C3, amended. When the method has no inlining ([HasInlineInfo] false),
    the setter of the inline-info offset fails its debug-checked
    precondition, whereas the getter returns the "absent" value
    [kNoInlineInfo] without reading the record. *)
Theorem inline_offset_without_inline_info `{Build} (this : StackMap.t) (info : CodeInfo.t)
        (offset : Z) :
  CodeInfo.HasInlineInfo info = false ->
  StackMap.GetInlineDescriptorOffset this info = Ok StackMap.kNoInlineInfo
  /\ StackMap.kNoInlineInfo = 0xFFFFFFFF
  /\ (kEnableDChecks = true ->
      StackMap.SetInlineDescriptorOffset this info offset = Abort DCheckFailure).
Proof.
  intros Hno. unfold StackMap.GetInlineDescriptorOffset, StackMap.SetInlineDescriptorOffset.
  rewrite Hno. cbn [negb]. split; [reflexivity|]. split; [reflexivity|].
  intros Hdebug. rewrite DCHECK_false, Hdebug. reflexivity.
Qed.

Lemma inline_offset_without_inline_info_witness :
  StackMap.GetInlineDescriptorOffset (H := debug_build_64)
    sample_stack_map header_without_inlining = Ok StackMap.kNoInlineInfo
  /\ StackMap.kNoInlineInfo = 0xFFFFFFFF
  /\ (kEnableDChecks (Build := debug_build_64) = true ->
      StackMap.SetInlineDescriptorOffset (H := debug_build_64)
        sample_stack_map header_without_inlining 7 = Abort DCheckFailure).
Proof.
  apply (@inline_offset_without_inline_info debug_build_64). reflexivity.
Defined.

(** ** The size of a safepoint record *)

Lemma EncodingSizeInBytes_covers (max_element : Z) :
  0 <= max_element < 2 ^ 32 ->
  0 <= CodeInfo.EncodingSizeInBytes max_element <= 4
  /\ max_element <= all_ones (CodeInfo.EncodingSizeInBytes max_element)
  /\ (0 < max_element -> 1 <= CodeInfo.EncodingSizeInBytes max_element).
Proof.
  intros Hmax. unfold CodeInfo.EncodingSizeInBytes.
  destruct (Z.eqb_spec max_element 0) as [-> |]; [vm_compute; intuition discriminate|].
  destruct (Z.ltb_spec max_element (2 ^ 8));
    [change (all_ones 1) with (2 ^ 8 - 1); lia|].
  destruct (Z.ltb_spec max_element (2 ^ 16));
    [change (all_ones 2) with (2 ^ 16 - 1); lia|].
  destruct (Z.ltb_spec max_element (2 ^ 24));
    [change (all_ones 3) with (2 ^ 24 - 1); lia|].
  change (all_ones 4) with (2 ^ 32 - 1). lia.
Qed.

Lemma EncodingSizeInBytes_widened (k : Z) :
  0 <= k <= 3 ->
  CodeInfo.EncodingSizeInBytes (all_ones k) = k
  /\ CodeInfo.EncodingSizeInBytes (all_ones k + 1) = k + 1.
Proof.
  intros Hk.
  assert (k = 0 \/ k = 1 \/ k = 2 \/ k = 3) as [-> | [-> | [-> | ->]]] by lia;
    split; reflexivity.
Qed.

Lemma size_t_of_uint32 `{Build} (v : Z) :
  32 <= size_t_bits -> 0 <= v < 2 ^ 32 -> size_t v = v.
Proof.
  intros Hbits Hv. apply size_t_small.
  assert (2 ^ 32 <= 2 ^ size_t_bits) by (apply Z.pow_le_mono_r; lia). lia.
Qed.

(** C5. [ComputeStackMapSize] sizes the variable-map-offset field from
    its largest offset plus 1 and, when inlining is present, the
    inline-info-offset field from its largest offset plus 1.  Every real
    offset then lies strictly below the all-ones pattern of the chosen
    width, and a maximum that is itself the all-ones pattern of a width
    gets the next width. *)
Theorem ComputeStackMapSize_reserves_sentinel `{Build}
        (stack_mask_size inline_info_size dex_register_map_size
         dex_pc_max native_pc_max register_mask_max : Z) :
  32 <= size_t_bits ->
  0 <= inline_info_size -> 0 <= dex_register_map_size ->
  inline_info_size + dex_register_map_size + 1 < 2 ^ 32 ->
  let dex_map_width := CodeInfo.EncodingSizeInBytes (dex_register_map_size + 1) in
  let inline_info_width :=
    if inline_info_size =? 0 then 0
    else CodeInfo.EncodingSizeInBytes (inline_info_size + dex_register_map_size + 1) in
  StackMap.ComputeStackMapSize stack_mask_size inline_info_size dex_register_map_size
                               dex_pc_max native_pc_max register_mask_max
  = StackMap.ComputeStackMapSizeInternal
      stack_mask_size inline_info_width dex_map_width
      (CodeInfo.EncodingSizeInBytes dex_pc_max)
      (CodeInfo.EncodingSizeInBytes native_pc_max)
      (CodeInfo.EncodingSizeInBytes register_mask_max)
  /\ (1 <= dex_map_width <= 4
      /\ forall offset, 0 <= offset <= dex_register_map_size ->
                        offset < all_ones dex_map_width)
  /\ (inline_info_size <> 0 ->
      1 <= inline_info_width <= 4
      /\ forall offset, 0 <= offset <= inline_info_size + dex_register_map_size ->
                        offset < all_ones inline_info_width)
  /\ (forall k, 0 <= k <= 3 -> dex_register_map_size = all_ones k ->
                CodeInfo.EncodingSizeInBytes dex_register_map_size = k
                /\ dex_map_width = k + 1)
  /\ (forall k, 0 <= k <= 3 -> inline_info_size <> 0 ->
                inline_info_size + dex_register_map_size = all_ones k ->
                CodeInfo.EncodingSizeInBytes (inline_info_size + dex_register_map_size) = k
                /\ inline_info_width = k + 1).
Proof.
  intros Hbits Hinline Hdex Hmax dex_map_width inline_info_width.
  split; [|split; [|split; [|split]]].
  - unfold StackMap.ComputeStackMapSize.
    rewrite (size_t_of_uint32 (inline_info_size + dex_register_map_size)) by lia.
    rewrite !size_t_of_uint32 by lia. reflexivity.
  - destruct (EncodingSizeInBytes_covers (dex_register_map_size + 1)) as (Hw & Hcover & Hpos);
      [lia|]. fold dex_map_width in Hw, Hcover, Hpos.
    split; [lia|]. intros offset Hoffset. lia.
  - intros Hpresent. unfold inline_info_width.
    destruct (Z.eqb_spec inline_info_size 0) as [|_]; [contradiction|].
    destruct (EncodingSizeInBytes_covers (inline_info_size + dex_register_map_size + 1))
      as (Hw & Hcover & Hpos); [lia|].
    split; [lia|]. intros offset Hoffset. lia.
  - intros k Hk ->. unfold dex_map_width. apply EncodingSizeInBytes_widened, Hk.
  - intros k Hk Hpresent Heq. unfold inline_info_width.
    destruct (Z.eqb_spec inline_info_size 0) as [|_]; [contradiction|].
    rewrite Heq. apply EncodingSizeInBytes_widened, Hk.
Qed.

Lemma ComputeStackMapSize_reserves_sentinel_witness :
  StackMap.ComputeStackMapSize (H := debug_build_64) 1 10 255 100 1000 3 = 9
  /\ CodeInfo.EncodingSizeInBytes 255 = 1
  /\ CodeInfo.EncodingSizeInBytes (255 + 1) = 2
  /\ (forall offset, 0 <= offset <= 255 -> offset < all_ones 2).
Proof.
  destruct (@ComputeStackMapSize_reserves_sentinel debug_build_64 1 10 255 100 1000 3)
    as (Hsize & (_ & Hbelow) & _ & Hwidened & _).
  - vm_compute. discriminate.
  - lia.
  - lia.
  - vm_compute. reflexivity.
  - destruct (Hwidened 1) as (Hnarrow & Hwide); [lia | reflexivity |].
    split; [rewrite Hsize; reflexivity|].
    split; [exact Hnarrow|]. split; [exact Hwide | exact Hbelow].
Defined.

(** C6. The size of a safepoint record is exactly the sum of the widths
    the header gives for this method (stack mask, inline-info offset,
    variable-map offset, instruction offset, native offset, register
    mask), whenever that sum is a [size_t]; it is computed from the header
    alone, so it is the same for all records of one table. *)
Theorem record_size_is_sum_of_widths `{Build} (info : CodeInfo.t) :
  0 <= CodeInfo.GetStackMaskSize info ->
  0 <= CodeInfo.NumberOfBytesForInlineInfo info <= 4 ->
  0 <= CodeInfo.NumberOfBytesForDexRegisterMap info <= 4 ->
  0 <= CodeInfo.NumberOfBytesForDexPc info <= 4 ->
  0 <= CodeInfo.NumberOfBytesForNativePc info <= 4 ->
  0 <= CodeInfo.NumberOfBytesForRegisterMask info <= 4 ->
  CodeInfo.GetStackMaskSize info + 20 < 2 ^ size_t_bits ->
  StackMap.ComputeStackMapSizeInternal
    (CodeInfo.GetStackMaskSize info)
    (CodeInfo.NumberOfBytesForInlineInfo info)
    (CodeInfo.NumberOfBytesForDexRegisterMap info)
    (CodeInfo.NumberOfBytesForDexPc info)
    (CodeInfo.NumberOfBytesForNativePc info)
    (CodeInfo.NumberOfBytesForRegisterMask info)
  = CodeInfo.GetStackMaskSize info
    + CodeInfo.NumberOfBytesForInlineInfo info
    + CodeInfo.NumberOfBytesForDexRegisterMap info
    + CodeInfo.NumberOfBytesForDexPc info
    + CodeInfo.NumberOfBytesForNativePc info
    + CodeInfo.NumberOfBytesForRegisterMask info.
Proof.
  intros Hmask Hinline Hdex Hpc Hnative Hregister Hfit.
  unfold StackMap.ComputeStackMapSizeInternal.
  set (mask := CodeInfo.GetStackMaskSize info) in *.
  set (w1 := CodeInfo.NumberOfBytesForInlineInfo info) in *.
  set (w2 := CodeInfo.NumberOfBytesForDexRegisterMap info) in *.
  set (w3 := CodeInfo.NumberOfBytesForDexPc info) in *.
  set (w4 := CodeInfo.NumberOfBytesForNativePc info) in *.
  set (w5 := CodeInfo.NumberOfBytesForRegisterMask info) in *.
  rewrite (size_t_small (mask + w1)) by lia.
  rewrite (size_t_small (mask + w1 + w2)) by lia.
  rewrite (size_t_small (mask + w1 + w2 + w3)) by lia.
  rewrite (size_t_small (mask + w1 + w2 + w3 + w4)) by lia.
  apply size_t_small. lia.
Qed.

Lemma record_size_is_sum_of_widths_witness :
  StackMap.ComputeStackMapSizeInternal (H := release_build_32) 1 0 1 1 1 1
  = 1 + 0 + 1 + 1 + 1 + 1.
Proof.
  apply (@record_size_is_sum_of_widths release_build_32 header_without_inlining);
    vm_compute; first [reflexivity | split; discriminate | discriminate].
Defined.

(** ** Dead variables *)

(** C4. A dead variable (live bit 0) resolves to "no location", and its
    kind to "none", without any catalog entry being read, whatever the
    catalog holds; so the catalog is read only for live variables. *)
Theorem dead_variable_has_no_location `{Build} (this : DexRegisterMap.t)
        (dex_register_number number_of_dex_registers : Z) (code_info : CodeInfo.t) :
  DexRegisterMap.IsDexRegisterLive this dex_register_number = false ->
  DexRegisterMap.GetDexRegisterLocation
    this dex_register_number number_of_dex_registers code_info
  = traced (Ok DexRegisterLocation.None) []
  /\ DexRegisterMap.GetLocationInternalKind
       this dex_register_number number_of_dex_registers code_info
     = traced (Ok DexRegisterLocation.kNone) [].
Proof.
  intros Hdead.
  unfold DexRegisterMap.GetDexRegisterLocation, DexRegisterMap.GetLocationInternalKind,
    DexRegisterMap.GetLocationCatalogEntryIndex.
  rewrite Hdead. cbn [negb].
  unfold DexRegisterLocationCatalog.GetDexRegisterLocation,
    DexRegisterLocationCatalog.GetLocationInternalKind.
  rewrite Z.eqb_refl. split; reflexivity.
Qed.

Lemma dead_variable_has_no_location_witness :
  DexRegisterMap.GetDexRegisterLocation (H := debug_build_64)
    sample_dex_register_map 1 2 header_without_inlining
  = traced (Ok DexRegisterLocation.None) []
  /\ DexRegisterMap.GetLocationInternalKind (H := debug_build_64)
       sample_dex_register_map 1 2 header_without_inlining
     = traced (Ok DexRegisterLocation.kNone) [].
Proof.
  apply (@dead_variable_has_no_location debug_build_64). reflexivity.
Defined.

(** ** The chosen width and the codec *)


(** ** The model on concrete regions *)

Example StoreAt_3_writes_three_bytes :
  StoreAt (H := debug_build_64) [Byte.x00; Byte.x11; Byte.x22; Byte.x33; Byte.x44]
          3 1 0xABCDEF
  = Ok [Byte.x00; Byte.xef; Byte.xcd; Byte.xab; Byte.x44].
Proof. vm_compute. reflexivity. Qed.

Example StoreAt_1_truncates :
  StoreAt (H := debug_build_64) [Byte.x00; Byte.x11] 1 1 0x1234
  = Ok [Byte.x00; Byte.x34].
Proof. vm_compute. reflexivity. Qed.

Example LoadAt_2_little_endian :
  LoadAt (H := debug_build_64) [Byte.x00; Byte.x34; Byte.x12] 2 1 false = Ok 0x1234.
Proof. vm_compute. reflexivity. Qed.

Example LoadAt_3_sentinel :
  LoadAt (H := debug_build_64) [Byte.x00; Byte.xff; Byte.xff; Byte.xff] 3 1 true
  = Ok 0xFFFFFFFF.
Proof. vm_compute. reflexivity. Qed.

Example LoadAt_3_no_sentinel_check :
  LoadAt (H := debug_build_64) [Byte.x00; Byte.xff; Byte.xff; Byte.xff] 3 1 false
  = Ok 0xFFFFFF.
Proof. vm_compute. reflexivity. Qed.

Example LoadAt_outside_region :
  LoadAt (H := debug_build_64) [Byte.x00; Byte.x01] 2 1 false = Abort OutOfBounds.
Proof. vm_compute. reflexivity. Qed.

Example StoreAt_width_5_debug :
  StoreAt (H := debug_build_64) [Byte.x00; Byte.x00; Byte.x00; Byte.x00; Byte.x00] 5 0 1
  = Abort DCheckFailure.
Proof. vm_compute. reflexivity. Qed.

Example StoreAt_width_5_release :
  StoreAt (H := release_build_32) [Byte.x00; Byte.x00; Byte.x00; Byte.x00; Byte.x00] 5 0 1
  = Ok [Byte.x01; Byte.x00; Byte.x00; Byte.x00; Byte.x00].
Proof. vm_compute. reflexivity. Qed.

Example GetDexRegisterMapOffset_absent :
  StackMap.GetDexRegisterMapOffset (H := debug_build_64)
    sample_stack_map header_without_inlining = Ok StackMap.kNoDexRegisterMap.
Proof. vm_compute. reflexivity. Qed.

Example SetInlineDescriptorOffset_release :
  StackMap.SetInlineDescriptorOffset (H := release_build_32)
    sample_stack_map header_without_inlining 7 = Ok sample_stack_map.
Proof. vm_compute. reflexivity. Qed.

Example live_variable_reads_its_entry :
  DexRegisterMap.GetDexRegisterLocation (H := debug_build_64)
    sample_dex_register_map 0 2 header_without_inlining
  = traced (Ok {| DexRegisterLocation.GetInternalKind := DexRegisterLocation.kInRegister;
                  DexRegisterLocation.GetValue := 1 |}) [0].
Proof. vm_compute. reflexivity. Qed.

(** * Further properties of the codec *)

(** ** Loads *)

Lemma LoadAt_wide `{Build} (region : MemoryRegion.t) (w offset : Z) (check_max : bool) :
  4 <= w ->
  LoadAt region w offset check_max =
  (DCHECK (w =? 4) ;;; MemoryRegion.LoadUnaligned uint32_t region offset).
Proof.
  intros Hw. unfold LoadAt.
  destruct (Z.eqb_spec w 0); [lia|]. destruct (Z.eqb_spec w 1); [lia|].
  destruct (Z.eqb_spec w 2); [lia|]. destruct (Z.eqb_spec w 3); [lia|].
  reflexivity.
Qed.

Lemma contains_false (region : MemoryRegion.t) (offset : Z) (n : nat) :
  ~ (0 <= offset /\ offset + Z.of_nat n <= MemoryRegion.size region) ->
  MemoryRegion.contains region offset n = false.
Proof.
  intros Hout. destruct (MemoryRegion.contains region offset n) eqn:Hin; [|reflexivity].
  apply contains_true in Hin. contradiction.
Qed.

Lemma LoadUnaligned_Ok (T : UnsignedType) (region : MemoryRegion.t) (offset v : Z) :
  MemoryRegion.LoadUnaligned T region offset = Ok v ->
  0 <= offset
  /\ offset + Z.of_nat (sizeof T) <= MemoryRegion.size region
  /\ 0 <= v < 2 ^ (8 * Z.of_nat (sizeof T)).
Proof.
  unfold MemoryRegion.LoadUnaligned. intros Hload.
  destruct (MemoryRegion.contains region offset (sizeof T)) eqn:Hin; [|discriminate].
  apply contains_true in Hin. destruct Hin as [Hoff Hin].
  split; [exact Hoff|]. split; [exact Hin|].
  injection Hload as <-.
  pose proof (le_combine_bound (firstn (sizeof T) (skipn (Z.to_nat offset) region)))
    as Hbound.
  rewrite length_firstn, length_skipn in Hbound.
  unfold MemoryRegion.size in Hin.
  replace (Nat.min (sizeof T) (length region - Z.to_nat offset)) with (sizeof T)
    in Hbound by lia.
  exact Hbound.
Qed.

Lemma LoadUnaligned_ext (T : UnsignedType) (region region' : MemoryRegion.t) (offset : Z) :
  length region' = length region ->
  (forall i : nat,
      offset <= Z.of_nat i < offset + Z.of_nat (sizeof T) ->
      nth_error region' i = nth_error region i) ->
  MemoryRegion.LoadUnaligned T region' offset = MemoryRegion.LoadUnaligned T region offset.
Proof.
  intros Hlen Hsame. unfold MemoryRegion.LoadUnaligned.
  assert (Hcontains : MemoryRegion.contains region' offset (sizeof T)
                      = MemoryRegion.contains region offset (sizeof T))
    by (unfold MemoryRegion.contains, MemoryRegion.size; rewrite Hlen; reflexivity).
  rewrite Hcontains.
  destruct (MemoryRegion.contains region offset (sizeof T)) eqn:Hin; [|reflexivity].
  apply contains_true in Hin. destruct Hin as [Hoff Hin].
  f_equal. f_equal. apply nth_error_ext. intros i.
  rewrite !nth_error_firstn, !nth_error_skipn.
  destruct (Nat.ltb_spec i (sizeof T)); [|reflexivity].
  apply Hsame. lia.
Qed.

Lemma LoadAt_ext `{Build} (region region' : MemoryRegion.t) (w offset : Z)
      (check_max : bool) :
  0 <= w ->
  MemoryRegion.size region < 2 ^ size_t_bits ->
  length region' = length region ->
  (forall i : nat,
      offset <= Z.of_nat i < offset + w ->
      nth_error region' i = nth_error region i) ->
  LoadAt region' w offset check_max = LoadAt region w offset check_max.
Proof.
  intros Hw Hfit Hlen Hsame.
  destruct (narrow_or_wide w Hw) as [-> | [-> | [-> | [-> | Hwide]]]].
  - rewrite !LoadAt_0. reflexivity.
  - rewrite !LoadAt_1, (LoadUnaligned_ext uint8_t region region'); [reflexivity | exact Hlen |].
    intros i Hi. apply Hsame. cbn [sizeof] in Hi. lia.
  - rewrite !LoadAt_2, (LoadUnaligned_ext uint16_t region region'); [reflexivity | exact Hlen |].
    intros i Hi. apply Hsame. cbn [sizeof] in Hi. lia.
  - rewrite !LoadAt_3, (LoadUnaligned_ext uint16_t region region');
      [| exact Hlen | intros i Hi; apply Hsame; cbn [sizeof] in Hi; lia].
    destruct (MemoryRegion.LoadUnaligned uint16_t region offset) as [low|] eqn:Hlow;
      [|reflexivity]. cbn [bind].
    destruct (LoadUnaligned_Ok _ _ _ _ Hlow) as (Hoff & Hin & _). cbn [sizeof] in Hin.
    rewrite size_t_small by lia.
    rewrite (LoadUnaligned_ext uint8_t region region'); [reflexivity | exact Hlen |].
    intros i Hi. apply Hsame. cbn [sizeof] in Hi. lia.
  - rewrite !LoadAt_wide by exact Hwide.
    rewrite (LoadUnaligned_ext uint32_t region region'); [reflexivity | exact Hlen |].
    intros i Hi. apply Hsame. cbn [sizeof] in Hi. lia.
Qed.

Lemma sentinel_decode_range (check_max : bool) (x w v : Z) :
  1 <= w <= 3 ->
  0 <= x < 2 ^ (8 * w) ->
  (if check_max && (x =? all_ones w) then Ok (static_cast uint32_t (-1)) else Ok x)
  = Ok v ->
  0 <= v < 2 ^ 32
  /\ (w <= 3 -> v < 2 ^ (8 * w) \/ (check_max = true /\ v = 0xFFFFFFFF))
  /\ (check_max = true -> 1 <= w <= 3 -> v <> all_ones w).
Proof.
  intros Hw Hx Hdecode.
  change (static_cast uint32_t (-1)) with 4294967295 in Hdecode.
  assert (Hpow : 2 ^ (8 * w) <= 2 ^ 24) by (apply Z.pow_le_mono_r; lia).
  assert (Hones : all_ones w = 2 ^ (8 * w) - 1) by reflexivity.
  destruct check_max; cbn [andb] in Hdecode.
  - destruct (Z.eqb_spec x (all_ones w)) as [Heq | Hne]; injection Hdecode as <-.
    + split; [lia|]. split; [intros _; right; split; reflexivity|]. intros _ _. lia.
    + split; [lia|]. split; [intros _; left; lia|]. intros _ _. exact Hne.
  - injection Hdecode as <-.
    split; [lia|]. split; [intros _; left; lia|]. intros Hcheck. discriminate Hcheck.
Qed.

(** X1. Whatever bytes a region holds, a value [LoadAt] returns is a
    [uint32_t]; for a width up to 3 it is either below [2 ^ (8 * w)] or,
    under sentinel checking, [0xFFFFFFFF]; and under sentinel checking the
    all-ones pattern of a width from 1 to 3 is never returned as a value. *)
Theorem LoadAt_result_range `{Build} (region : MemoryRegion.t) (w offset v : Z)
        (check_max : bool) :
  0 <= w ->
  LoadAt region w offset check_max = Ok v ->
  0 <= v < 2 ^ 32
  /\ (w <= 3 -> v < 2 ^ (8 * w) \/ (check_max = true /\ v = 0xFFFFFFFF))
  /\ (check_max = true -> 1 <= w <= 3 -> v <> all_ones w).
Proof.
  intros Hw Hload.
  destruct (narrow_or_wide w Hw) as [-> | [-> | [-> | [-> | Hwide]]]].
  - rewrite LoadAt_0 in Hload. destruct (DCHECK (negb check_max)); [|discriminate].
    injection Hload as <-.
    split; [lia|]. split; [intros _; left; reflexivity|]. intros _ Hw1. lia.
  - rewrite LoadAt_1 in Hload.
    destruct (MemoryRegion.LoadUnaligned uint8_t region offset) as [x|] eqn:Hx;
      [|discriminate]. cbn [bind] in Hload.
    destruct (LoadUnaligned_Ok _ _ _ _ Hx) as (_ & _ & Hrange).
    apply (sentinel_decode_range check_max x 1 v); [lia | exact Hrange | exact Hload].
  - rewrite LoadAt_2 in Hload.
    destruct (MemoryRegion.LoadUnaligned uint16_t region offset) as [x|] eqn:Hx;
      [|discriminate]. cbn [bind] in Hload.
    destruct (LoadUnaligned_Ok _ _ _ _ Hx) as (_ & _ & Hrange).
    apply (sentinel_decode_range check_max x 2 v); [lia | exact Hrange | exact Hload].
  - rewrite LoadAt_3 in Hload.
    destruct (MemoryRegion.LoadUnaligned uint16_t region offset) as [low|] eqn:Hlow;
      [|discriminate]. cbn [bind] in Hload.
    destruct (MemoryRegion.LoadUnaligned uint8_t region (size_t (offset + 2)))
      as [high|] eqn:Hhigh; [|discriminate]. cbn [bind] in Hload.
    destruct (LoadUnaligned_Ok _ _ _ _ Hlow) as (_ & _ & Hl). cbn [sizeof] in Hl.
    destruct (LoadUnaligned_Ok _ _ _ _ Hhigh) as (_ & _ & Hh). cbn [sizeof] in Hh.
    change (2 ^ (8 * Z.of_nat 2)) with 65536 in Hl.
    change (2 ^ (8 * Z.of_nat 1)) with 256 in Hh.
    cbv zeta in Hload.
    assert (Hvalue : static_cast uint32_t (Z.shiftl high 16 + low) = high * 2 ^ 16 + low).
    { unfold static_cast.
      change (2 ^ (kBitsPerByte * Z.of_nat (sizeof uint32_t))) with 4294967296.
      rewrite Z.shiftl_mul_pow2 by lia. apply Z.mod_small. lia. }
    rewrite Hvalue in Hload.
    apply (sentinel_decode_range check_max (high * 2 ^ 16 + low) 3 v);
      [lia | change (2 ^ (8 * 3)) with 16777216; lia | exact Hload].
  - rewrite LoadAt_wide in Hload by exact Hwide.
    destruct (DCHECK (w =? 4)); [|discriminate]. cbn [bind] in Hload.
    destruct (LoadUnaligned_Ok _ _ _ _ Hload) as (_ & _ & Hrange). cbn [sizeof] in Hrange.
    change (2 ^ (8 * Z.of_nat 4)) with (2 ^ 32) in Hrange.
    split; [exact Hrange|]. split; intros; lia.
Qed.

Lemma LoadAt_result_range_witness :
  0 <= 0xFFFFFFFF < 2 ^ 32
  /\ (3 <= 3 -> 0xFFFFFFFF < 2 ^ (8 * 3) \/ (true = true /\ 0xFFFFFFFF = 0xFFFFFFFF))
  /\ (true = true -> 1 <= 3 <= 3 -> 0xFFFFFFFF <> all_ones 3).
Proof.
  apply (@LoadAt_result_range debug_build_64
           [Byte.x00; Byte.xff; Byte.xff; Byte.xff] 3 1 0xFFFFFFFF true).
  - lia.
  - vm_compute. reflexivity.
Defined.

(** X2. [LoadAt] reads only the bytes of its field: two regions of the
    same size that agree on [offset, offset + w) load the same result,
    failures included. *)
Theorem LoadAt_reads_only_its_field `{Build} (region region' : MemoryRegion.t)
        (w offset : Z) (check_max : bool) :
  0 <= w ->
  MemoryRegion.size region < 2 ^ size_t_bits ->
  length region' = length region ->
  (forall i : nat,
      offset <= Z.of_nat i < offset + w ->
      nth_error region' i = nth_error region i) ->
  LoadAt region' w offset check_max = LoadAt region w offset check_max.
Proof.
  intros Hw Hfit Hlen Hsame.
  apply LoadAt_ext; [exact Hw | exact Hfit | exact Hlen |].
  intros i Hi. apply Hsame. exact Hi.
Qed.

Lemma LoadAt_reads_only_its_field_witness :
  LoadAt (H := debug_build_64) [Byte.x77; Byte.x34; Byte.x12; Byte.x55] 2 1 true
  = LoadAt (H := debug_build_64) [Byte.x00; Byte.x34; Byte.x12; Byte.x99] 2 1 true.
Proof.
  apply (@LoadAt_reads_only_its_field debug_build_64).
  - lia.
  - vm_compute. reflexivity.
  - reflexivity.
  - intros i Hi. destruct i as [|[|[|i]]]; try lia; reflexivity.
Defined.

(** ** Accesses outside the region *)

Lemma LoadUnaligned_outside (T : UnsignedType) (region : MemoryRegion.t) (offset : Z) :
  ~ (0 <= offset /\ offset + Z.of_nat (sizeof T) <= MemoryRegion.size region) ->
  MemoryRegion.LoadUnaligned T region offset = Abort OutOfBounds.
Proof.
  intros Hout. unfold MemoryRegion.LoadUnaligned.
  rewrite contains_false by exact Hout. reflexivity.
Qed.

Lemma StoreUnaligned_outside (T : UnsignedType) (region : MemoryRegion.t)
      (offset value : Z) :
  ~ (0 <= offset /\ offset + Z.of_nat (sizeof T) <= MemoryRegion.size region) ->
  MemoryRegion.StoreUnaligned T region offset value = Abort OutOfBounds.
Proof.
  intros Hout. unfold MemoryRegion.StoreUnaligned.
  rewrite contains_false by exact Hout. reflexivity.
Qed.

Lemma LoadAt_outside `{Build} (region : MemoryRegion.t) (w offset : Z) (check_max : bool) :
  1 <= w <= 4 ->
  MemoryRegion.size region < 2 ^ size_t_bits ->
  ~ (0 <= offset /\ offset + w <= MemoryRegion.size region) ->
  LoadAt region w offset check_max = Abort OutOfBounds.
Proof.
  intros Hw Hfit Hout.
  destruct (width_cases w Hw) as [-> | [-> | [-> | ->]]].
  - rewrite LoadAt_1, LoadUnaligned_outside by (cbn [sizeof]; lia). reflexivity.
  - rewrite LoadAt_2, LoadUnaligned_outside by (cbn [sizeof]; lia). reflexivity.
  - rewrite LoadAt_3.
    destruct (MemoryRegion.LoadUnaligned uint16_t region offset) as [low | failure] eqn:Hlow.
    + destruct (LoadUnaligned_Ok _ _ _ _ Hlow) as (Hoff & Hin & _). cbn [sizeof] in Hin.
      cbn [bind]. rewrite size_t_small by lia.
      rewrite LoadUnaligned_outside by (cbn [sizeof]; lia). reflexivity.
    + unfold MemoryRegion.LoadUnaligned in Hlow.
      destruct (MemoryRegion.contains region offset (sizeof uint16_t)); [discriminate|].
      injection Hlow as <-. reflexivity.
  - rewrite LoadAt_4, DCHECK_true. cbn [bind].
    apply LoadUnaligned_outside. cbn [sizeof]. lia.
Qed.

Lemma StoreAt_outside `{Build} (region : MemoryRegion.t) (w offset value : Z) :
  1 <= w <= 4 ->
  MemoryRegion.size region < 2 ^ size_t_bits ->
  ~ (0 <= offset /\ offset + w <= MemoryRegion.size region) ->
  StoreAt region w offset value = Abort OutOfBounds.
Proof.
  intros Hw Hfit Hout.
  destruct (width_cases w Hw) as [-> | [-> | [-> | ->]]].
  - rewrite StoreAt_1. apply StoreUnaligned_outside. cbn [sizeof]. lia.
  - rewrite StoreAt_2. apply StoreUnaligned_outside. cbn [sizeof]. lia.
  - rewrite StoreAt_3.
    destruct (MemoryRegion.StoreUnaligned uint16_t region offset (Low16Bits value))
      as [low_stored | failure] eqn:Hlow.
    + destruct (StoreUnaligned_Ok _ _ _ _ _ Hlow) as (Hoff & Hin & Hlen & _).
      cbn [sizeof] in Hin. cbn [bind]. rewrite size_t_small by lia.
      apply StoreUnaligned_outside. unfold MemoryRegion.size in *. rewrite Hlen.
      cbn [sizeof]. lia.
    + unfold MemoryRegion.StoreUnaligned in Hlow.
      destruct (MemoryRegion.contains region offset (sizeof uint16_t)); [discriminate|].
      injection Hlow as <-. reflexivity.
  - rewrite StoreAt_4, StoreUnaligned_outside by (cbn [sizeof]; lia). reflexivity.
Qed.

Lemma LoadAt_Ok_inside `{Build} (region : MemoryRegion.t) (w offset v : Z)
      (check_max : bool) :
  1 <= w <= 4 ->
  MemoryRegion.size region < 2 ^ size_t_bits ->
  LoadAt region w offset check_max = Ok v ->
  0 <= offset /\ offset + w <= MemoryRegion.size region.
Proof.
  intros Hw Hfit Hload.
  destruct (Z_le_dec 0 offset) as [Hoff|Hoff];
    [destruct (Z_le_dec (offset + w) (MemoryRegion.size region)) as [Hin|Hin]|].
  - split; assumption.
  - rewrite LoadAt_outside in Hload by (try assumption; lia). discriminate.
  - rewrite LoadAt_outside in Hload by (try assumption; lia). discriminate.
Qed.

Lemma StoreAt_Ok_inside `{Build} (region region' : MemoryRegion.t) (w offset value : Z) :
  1 <= w <= 4 ->
  MemoryRegion.size region < 2 ^ size_t_bits ->
  StoreAt region w offset value = Ok region' ->
  0 <= offset /\ offset + w <= MemoryRegion.size region.
Proof.
  intros Hw Hfit Hstore.
  destruct (Z_le_dec 0 offset) as [Hoff|Hoff];
    [destruct (Z_le_dec (offset + w) (MemoryRegion.size region)) as [Hin|Hin]|].
  - split; assumption.
  - rewrite StoreAt_outside in Hstore by (try assumption; lia). discriminate.
  - rewrite StoreAt_outside in Hstore by (try assumption; lia). discriminate.
Qed.



(** ** Stores *)

(** X4. Writing back what was loaded changes nothing: when [LoadAt]
    without sentinel checking returns [v] for a field of width 0 to 4,
    [StoreAt] of [v] into the same field returns the region as it was. *)
Theorem StoreAt_of_loaded_value `{Build} (region : MemoryRegion.t) (w offset v : Z) :
  0 <= w <= 4 ->
  MemoryRegion.size region < 2 ^ size_t_bits ->
  LoadAt region w offset false = Ok v ->
  StoreAt region w offset v = Ok region.
Proof.
  intros Hw Hfit Hload.
  destruct (Z.eq_dec w 0) as [-> | Hw0].
  - rewrite LoadAt_0 in Hload. cbn [negb] in Hload. rewrite DCHECK_true in Hload.
    injection Hload as <-. rewrite StoreAt_0. change (0 =? 0) with true.
    rewrite DCHECK_true. reflexivity.
  - destruct (LoadAt_Ok_inside region w offset v false) as [Hoff Hin]; try assumption; [lia|].
    destruct (region_split region offset (Z.to_nat w)) as (a & b & c & -> & <- & Hb);
      [lia | lia |].
    rewrite LoadAt_split in Hload by (try assumption; lia). cbn [andb] in Hload.
    injection Hload as <-.
    rewrite StoreAt_split by (try assumption; lia).
    rewrite split_le_combine' by exact Hb. reflexivity.
Qed.

Lemma StoreAt_of_loaded_value_witness :
  StoreAt (H := debug_build_64) [Byte.x00; Byte.x34; Byte.x12; Byte.xab; Byte.x99]
          3 1 0xAB1234
  = Ok [Byte.x00; Byte.x34; Byte.x12; Byte.xab; Byte.x99].
Proof.
  apply (@StoreAt_of_loaded_value debug_build_64).
  - lia.
  - vm_compute. reflexivity.
  - vm_compute. reflexivity.
Defined.

(** X5. The last store wins: after a [StoreAt] that returned, a second
    [StoreAt] into the same field gives what it would have given on the
    original region; nothing of the first value is left. *)
Theorem StoreAt_overwrites `{Build} (region region1 : MemoryRegion.t)
        (w offset v1 v2 : Z) :
  0 <= w <= 4 ->
  MemoryRegion.size region < 2 ^ size_t_bits ->
  StoreAt region w offset v1 = Ok region1 ->
  StoreAt region1 w offset v2 = StoreAt region w offset v2.
Proof.
  intros Hw Hfit Hfirst.
  destruct (Z.eq_dec w 0) as [-> | Hw0].
  - rewrite StoreAt_0 in Hfirst. destruct (DCHECK (v1 =? 0)); [|discriminate].
    injection Hfirst as <-. reflexivity.
  - destruct (StoreAt_Ok_inside region region1 w offset v1) as [Hoff Hin];
      try assumption; [lia|].
    destruct (region_split region offset (Z.to_nat w)) as (a & b & c & -> & <- & Hb);
      [lia | lia |].
    rewrite StoreAt_split in Hfirst by (try assumption; lia). injection Hfirst as <-.
    assert (Hsame : MemoryRegion.size (a ++ le_split (Z.to_nat w) v1 ++ c)
                    = MemoryRegion.size (a ++ b ++ c)).
    { unfold MemoryRegion.size. rewrite !length_app, length_le_split, Hb. reflexivity. }
    rewrite (StoreAt_split a (le_split (Z.to_nat w) v1) c w v2);
      [| lia | rewrite length_le_split; lia | rewrite Hsame; exact Hfit].
    rewrite (StoreAt_split a b c w v2); [reflexivity | lia | lia | exact Hfit].
Qed.

Lemma StoreAt_overwrites_witness :
  StoreAt (H := debug_build_64) [Byte.x00; Byte.xef; Byte.xcd; Byte.xab; Byte.x44] 3 1 0x010203
  = StoreAt (H := debug_build_64) [Byte.x00; Byte.x11; Byte.x22; Byte.x33; Byte.x44] 3 1 0x010203.
Proof.
  apply (@StoreAt_overwrites debug_build_64
           [Byte.x00; Byte.x11; Byte.x22; Byte.x33; Byte.x44] _ 3 1 0xABCDEF 0x010203).
  - lia.
  - vm_compute. reflexivity.
  - vm_compute. reflexivity.
Defined.

(** X6. A store into one field is invisible to a load from a field that
    does not overlap it: the load returns after the store what it returned
    before, failures included. *)
Theorem StoreAt_keeps_disjoint_fields `{Build} (region region' : MemoryRegion.t)
        (w1 o1 value w2 o2 : Z) (check_max : bool) :
  0 <= w1 -> 0 <= w2 ->
  MemoryRegion.size region < 2 ^ size_t_bits ->
  o1 + w1 <= o2 \/ o2 + w2 <= o1 ->
  StoreAt region w1 o1 value = Ok region' ->
  LoadAt region' w2 o2 check_max = LoadAt region w2 o2 check_max.
Proof.
  intros Hw1 Hw2 Hfit Hdisjoint Hstore.
  destruct (StoreAt_Ok region region' w1 o1 value Hw1 Hfit Hstore) as (Hlen & Hframe & _).
  apply LoadAt_ext; [exact Hw2 | exact Hfit | exact Hlen |].
  intros i Hi. apply Hframe. lia.
Qed.

Lemma StoreAt_keeps_disjoint_fields_witness :
  LoadAt (H := debug_build_64) [Byte.x00; Byte.xef; Byte.xcd; Byte.xab; Byte.x44] 1 4 true
  = LoadAt (H := debug_build_64) [Byte.x00; Byte.x11; Byte.x22; Byte.x33; Byte.x44] 1 4 true.
Proof.
  apply (@StoreAt_keeps_disjoint_fields debug_build_64
           [Byte.x00; Byte.x11; Byte.x22; Byte.x33; Byte.x44] _ 3 1 0xABCDEF 1 4 true).
  - lia.
  - lia.
  - vm_compute. reflexivity.
  - left. lia.
  - vm_compute. reflexivity.
Defined.

Lemma region_split2 (region : MemoryRegion.t) (o1 o2 : Z) (n1 n2 : nat) :
  0 <= o1 -> o1 + Z.of_nat n1 <= o2 -> o2 + Z.of_nat n2 <= MemoryRegion.size region ->
  exists a b1 m b2 c,
    region = a ++ b1 ++ m ++ b2 ++ c
    /\ Z.of_nat (length a) = o1 /\ length b1 = n1
    /\ Z.of_nat (length a + length b1 + length m) = o2 /\ length b2 = n2.
Proof.
  intros Ho1 Ho2 Hin.
  destruct (region_split region o1 n1) as (a & b1 & rest & -> & Ha & Hb1); [lia | lia |].
  unfold MemoryRegion.size in Hin. rewrite !length_app in Hin.
  destruct (region_split rest (o2 - o1 - Z.of_nat n1) n2) as (m & b2 & c & -> & Hm & Hb2);
    [lia | unfold MemoryRegion.size; lia |].
  exists a, b1, m, b2, c. repeat split; try assumption. lia.
Qed.

(** X7. Stores into two fields that do not overlap commute: both orders
    return, and return the same region. *)
Theorem disjoint_stores_commute `{Build} (region : MemoryRegion.t)
        (w1 o1 v1 w2 o2 v2 : Z) :
  1 <= w1 <= 4 -> 1 <= w2 <= 4 ->
  0 <= o1 -> o1 + w1 <= o2 -> o2 + w2 <= MemoryRegion.size region ->
  MemoryRegion.size region < 2 ^ size_t_bits ->
  exists both,
    (stored <- StoreAt region w1 o1 v1 ;; StoreAt stored w2 o2 v2) = Ok both
    /\ (stored <- StoreAt region w2 o2 v2 ;; StoreAt stored w1 o1 v1) = Ok both.
Proof.
  intros Hw1 Hw2 Ho1 Ho2 Hin Hfit.
  destruct (region_split2 region o1 o2 (Z.to_nat w1) (Z.to_nat w2))
    as (a & b1 & m & b2 & c & -> & <- & Hb1 & <- & Hb2); [lia | lia | lia |].
  set (s1 := le_split (Z.to_nat w1) v1). set (s2 := le_split (Z.to_nat w2) v2).
  assert (Hs1 : length s1 = Z.to_nat w1) by apply length_le_split.
  assert (Hs2 : length s2 = Z.to_nat w2) by apply length_le_split.
  unfold MemoryRegion.size in Hfit. rewrite !length_app in Hfit.
  exists (a ++ s1 ++ m ++ s2 ++ c). split.
  - rewrite (StoreAt_split a b1 (m ++ b2 ++ c) w1 v1);
      [| lia | lia | unfold MemoryRegion.size; rewrite !length_app; lia].
    cbn [bind]. fold s1.
    replace (a ++ s1 ++ m ++ b2 ++ c) with ((a ++ s1 ++ m) ++ b2 ++ c)
      by (rewrite <- !app_assoc; reflexivity).
    replace (Z.of_nat (length a + length b1 + length m))
      with (Z.of_nat (length (a ++ s1 ++ m))) by (rewrite !length_app; lia).
    rewrite (StoreAt_split (a ++ s1 ++ m) b2 c w2 v2);
      [| lia | lia | unfold MemoryRegion.size; rewrite !length_app; lia].
    fold s2. rewrite <- !app_assoc. reflexivity.
  - replace (a ++ b1 ++ m ++ b2 ++ c) with ((a ++ b1 ++ m) ++ b2 ++ c)
      by (rewrite <- !app_assoc; reflexivity).
    replace (Z.of_nat (length a + length b1 + length m))
      with (Z.of_nat (length (a ++ b1 ++ m))) by (rewrite !length_app; lia).
    rewrite (StoreAt_split (a ++ b1 ++ m) b2 c w2 v2);
      [| lia | lia | unfold MemoryRegion.size; rewrite !length_app; lia].
    cbn [bind]. fold s2. rewrite <- !app_assoc.
    rewrite (StoreAt_split a b1 (m ++ s2 ++ c) w1 v1);
      [reflexivity | lia | lia | unfold MemoryRegion.size; rewrite !length_app; lia].
Qed.

Lemma disjoint_stores_commute_witness :
  exists both,
    (stored <- StoreAt (H := release_build_32)
                 [Byte.x00; Byte.x11; Byte.x22; Byte.x33; Byte.x44; Byte.x55] 2 0 0xBEEF ;;
     StoreAt (H := release_build_32) stored 3 3 0xABCDEF) = Ok both
    /\ (stored <- StoreAt (H := release_build_32)
                    [Byte.x00; Byte.x11; Byte.x22; Byte.x33; Byte.x44; Byte.x55] 3 3 0xABCDEF ;;
        StoreAt (H := release_build_32) stored 2 0 0xBEEF) = Ok both.
Proof.
  apply (@disjoint_stores_commute release_build_32).
  - lia.
  - lia.
  - lia.
  - lia.
  - vm_compute. discriminate.
  - vm_compute. reflexivity.
Defined.

(** ** Widths above 4 *)

Lemma DCHECK_release `{Build} (condition : bool) :
  kEnableDChecks = false -> DCHECK condition = Ok tt.
Proof. intros Hrelease. unfold DCHECK. rewrite Hrelease. reflexivity. Qed.

(** X8. In a release build a width of 4 or more is a width of 4: [LoadAt]
    and [StoreAt] access the four bytes at [offset] and nothing records that
    the width was larger. *)
Theorem wide_width_in_release_build `{Build} (region : MemoryRegion.t)
        (w offset value : Z) (check_max : bool) :
  kEnableDChecks = false ->
  4 <= w ->
  LoadAt region w offset check_max = LoadAt region 4 offset check_max
  /\ StoreAt region w offset value = StoreAt region 4 offset value.
Proof.
  intros Hrelease Hw. split.
  - rewrite LoadAt_wide, LoadAt_4 by exact Hw.
    rewrite !DCHECK_release by exact Hrelease. reflexivity.
  - rewrite StoreAt_wide, StoreAt_4 by exact Hw.
    rewrite !DCHECK_release by exact Hrelease. reflexivity.
Qed.

Lemma wide_width_in_release_build_witness :
  LoadAt (H := release_build_32) [Byte.x01; Byte.x02; Byte.x03; Byte.x04; Byte.x05] 7 0 true
  = LoadAt (H := release_build_32) [Byte.x01; Byte.x02; Byte.x03; Byte.x04; Byte.x05] 4 0 true
  /\ StoreAt (H := release_build_32) [Byte.x01; Byte.x02; Byte.x03; Byte.x04; Byte.x05] 7 0 9
     = StoreAt (H := release_build_32) [Byte.x01; Byte.x02; Byte.x03; Byte.x04; Byte.x05] 4 0 9.
Proof.
  apply (@wide_width_in_release_build release_build_32).
  - reflexivity.
  - lia.
Defined.

(** X9. In a debug build a width above 4 never yields a value or a stored
    region.  [LoadAt] asserts before it loads, so it fails its assertion
    wherever the offset lies; [StoreAt] stores four bytes before it
    asserts, so it fails its assertion when those four bytes lie inside the
    region and is out of bounds otherwise. *)
Theorem wide_width_in_debug_build `{Build} (region : MemoryRegion.t)
        (w offset value : Z) (check_max : bool) :
  kEnableDChecks = true ->
  4 < w ->
  LoadAt region w offset check_max = Abort DCheckFailure
  /\ (0 <= offset /\ offset + 4 <= MemoryRegion.size region ->
      StoreAt region w offset value = Abort DCheckFailure)
  /\ (~ (0 <= offset /\ offset + 4 <= MemoryRegion.size region) ->
      StoreAt region w offset value = Abort OutOfBounds).
Proof.
  intros Hdebug Hw.
  assert (Hassert : DCHECK (w =? 4) = Abort DCheckFailure).
  { destruct (Z.eqb_spec w 4); [lia|]. rewrite DCHECK_false, Hdebug. reflexivity. }
  split; [|split].
  - rewrite LoadAt_wide, Hassert by lia. reflexivity.
  - intros [Hoff Hin]. rewrite StoreAt_wide by lia.
    destruct (StoreUnaligned_is_Ok uint32_t region offset value Hoff Hin) as (stored & ->).
    cbn [bind]. rewrite Hassert. reflexivity.
  - intros Hout. rewrite StoreAt_wide, StoreUnaligned_outside by (try exact Hout; lia).
    reflexivity.
Qed.

Lemma wide_width_in_debug_build_witness :
  LoadAt (H := debug_build_64) [Byte.x01; Byte.x02; Byte.x03; Byte.x04; Byte.x05] 5 9 false
  = Abort DCheckFailure
  /\ (0 <= 9 /\ 9 + 4 <= MemoryRegion.size [Byte.x01; Byte.x02; Byte.x03; Byte.x04; Byte.x05] ->
      StoreAt (H := debug_build_64) [Byte.x01; Byte.x02; Byte.x03; Byte.x04; Byte.x05] 5 9 1
      = Abort DCheckFailure)
  /\ (~ (0 <= 9 /\ 9 + 4 <= MemoryRegion.size [Byte.x01; Byte.x02; Byte.x03; Byte.x04; Byte.x05]) ->
      StoreAt (H := debug_build_64) [Byte.x01; Byte.x02; Byte.x03; Byte.x04; Byte.x05] 5 9 1
      = Abort OutOfBounds).
Proof.
  apply (@wide_width_in_debug_build debug_build_64).
  - reflexivity.
  - lia.
Defined.

(** * Properties of the record accessors *)

Lemma GetField_eq `{Build} (this : StackMap.t) (info : CodeInfo.t) (field : StackMap.Field) :
  StackMap.GetField this info field
  = if StackMap.present info field
    then LoadAt (StackMap.region_ this) (StackMap.NumberOfBytes info field)
                (StackMap.FieldOffset info field) (StackMap.checks_max field)
    else Ok StackMap.kNoInlineInfo.
Proof.
  destruct field; try reflexivity.
  cbn [StackMap.GetField StackMap.present]. unfold StackMap.GetInlineDescriptorOffset.
  destruct (CodeInfo.HasInlineInfo info); reflexivity.
Qed.

Lemma SetField_eq `{Build} (this : StackMap.t) (info : CodeInfo.t) (field : StackMap.Field)
      (value : Z) :
  StackMap.SetField this info field value
  = (DCHECK (StackMap.present info field) ;;;
     StackMap.store (StoreAt (StackMap.region_ this) (StackMap.NumberOfBytes info field)
                             (StackMap.FieldOffset info field) value)).
Proof.
  destruct field; cbn [StackMap.SetField StackMap.present]; rewrite ?DCHECK_true;
    reflexivity.
Qed.

(** What a setter that returned has done: stored into the region. *)
Lemma SetField_Ok `{Build} (this this' : StackMap.t) (info : CodeInfo.t)
      (field : StackMap.Field) (value : Z) :
  StackMap.SetField this info field value = Ok this' ->
  StoreAt (StackMap.region_ this) (StackMap.NumberOfBytes info field)
          (StackMap.FieldOffset info field) value = Ok (StackMap.region_ this').
Proof.
  rewrite SetField_eq. intros Hset.
  destruct (DCHECK (StackMap.present info field)); [|discriminate]. cbn [bind] in Hset.
  unfold StackMap.store in Hset.
  destruct (StoreAt (StackMap.region_ this) (StackMap.NumberOfBytes info field)
                    (StackMap.FieldOffset info field) value); [|discriminate].
  cbn [bind] in Hset. injection Hset as <-. reflexivity.
Qed.

Lemma SetField_then_GetField `{Build} (this : StackMap.t) (info : CodeInfo.t)
      (field : StackMap.Field) (value : Z) :
  let w := StackMap.NumberOfBytes info field in
  let offset := StackMap.FieldOffset info field in
  StackMap.present info field = true ->
  1 <= w <= 4 ->
  0 <= offset -> offset + w <= MemoryRegion.size (StackMap.region_ this) ->
  MemoryRegion.size (StackMap.region_ this) < 2 ^ size_t_bits ->
  exists this',
    StackMap.SetField this info field value = Ok this'
    /\ StackMap.GetField this' info field
       = Ok (if StackMap.checks_max field && (value mod 2 ^ (kBitsPerByte * w) =? all_ones w)
             then static_cast uint32_t (-1)
             else value mod 2 ^ (kBitsPerByte * w)).
Proof.
  intros w offset Hpresent Hw Hoff Hin Hfit.
  destruct (StoreAt_then_LoadAt (StackMap.region_ this) w offset value
                                (StackMap.checks_max field))
    as (region' & Hstore & _ & Hload); try assumption.
  exists {| StackMap.region_ := region' |}. split.
  - rewrite SetField_eq, Hpresent, DCHECK_true. cbn [bind].
    fold w offset. rewrite Hstore. reflexivity.
  - rewrite GetField_eq, Hpresent. exact Hload.
Qed.

(** X10. Every setter is undone by its getter: for each of the five
    fields (the inline-info offset only when the method has inline info),
    a value that fits the field's width - and, for the two offset fields,
    is not the all-ones pattern of that width - is returned by the getter
    after the setter stored it. *)
Theorem setter_then_getter `{Build} (this : StackMap.t) (info : CodeInfo.t)
        (field : StackMap.Field) (value : Z) :
  let w := StackMap.NumberOfBytes info field in
  let offset := StackMap.FieldOffset info field in
  StackMap.present info field = true ->
  1 <= w <= 4 ->
  0 <= offset -> offset + w <= MemoryRegion.size (StackMap.region_ this) ->
  MemoryRegion.size (StackMap.region_ this) < 2 ^ size_t_bits ->
  0 <= value < 2 ^ (8 * w) ->
  (StackMap.checks_max field = true -> value <> all_ones w) ->
  exists this',
    StackMap.SetField this info field value = Ok this'
    /\ StackMap.GetField this' info field = Ok value.
Proof.
  intros w offset Hpresent Hw Hoff Hin Hfit Hvalue Hreal.
  destruct (SetField_then_GetField this info field value Hpresent Hw Hoff Hin Hfit)
    as (this' & Hset & Hget).
  exists this'. split; [exact Hset|].
  rewrite Hget. fold w. change kBitsPerByte with 8. rewrite Z.mod_small by exact Hvalue.
  destruct (StackMap.checks_max field); [|reflexivity]. cbn [andb].
  destruct (Z.eqb_spec value (all_ones w)) as [Heq|]; [|reflexivity].
  exfalso. apply Hreal; [reflexivity | exact Heq].
Qed.

Lemma setter_then_getter_witness :
  exists this',
    StackMap.SetField (H := debug_build_64) sample_stack_map_with_inlining
                      header_with_inlining StackMap.InlineDescriptorOffset 0x1234 = Ok this'
    /\ StackMap.GetField (H := debug_build_64) this' header_with_inlining
                         StackMap.InlineDescriptorOffset = Ok 0x1234.
Proof.
  apply (@setter_then_getter debug_build_64).
  - reflexivity.
  - vm_compute. split; discriminate.
  - vm_compute. discriminate.
  - vm_compute. discriminate.
  - vm_compute. reflexivity.
  - vm_compute. split; [discriminate | reflexivity].
  - intros _. vm_compute. discriminate.
Defined.

(** X11. For the two offset fields, storing "none" ([0xFFFFFFFF]) reads
    back as "none" at every width from 1 to 4; and so does storing the real
    offset that equals the all-ones pattern of the field's width, which is
    the collision the width computation has to avoid. *)
Theorem all_ones_offset_reads_as_none `{Build} (this : StackMap.t) (info : CodeInfo.t)
        (field : StackMap.Field) (value : Z) :
  let w := StackMap.NumberOfBytes info field in
  let offset := StackMap.FieldOffset info field in
  StackMap.checks_max field = true ->
  StackMap.present info field = true ->
  1 <= w <= 4 ->
  0 <= offset -> offset + w <= MemoryRegion.size (StackMap.region_ this) ->
  MemoryRegion.size (StackMap.region_ this) < 2 ^ size_t_bits ->
  value = 0xFFFFFFFF \/ value = all_ones w ->
  exists this',
    StackMap.SetField this info field value = Ok this'
    /\ StackMap.GetField this' info field = Ok 0xFFFFFFFF.
Proof.
  intros w offset Hsentinel Hpresent Hw Hoff Hin Hfit Hvalue.
  destruct (SetField_then_GetField this info field value Hpresent Hw Hoff Hin Hfit)
    as (this' & Hset & Hget).
  exists this'. split; [exact Hset|].
  rewrite Hget, Hsentinel. fold w. cbn [andb].
  assert (Hones : value mod 2 ^ (kBitsPerByte * w) = all_ones w).
  { destruct (width_cases w Hw) as [Hk | [Hk | [Hk | Hk]]]; rewrite Hk in *;
      destruct Hvalue as [-> | ->]; reflexivity. }
  rewrite Hones, Z.eqb_refl. reflexivity.
Qed.

Lemma all_ones_offset_reads_as_none_witness :
  exists this',
    StackMap.SetField (H := debug_build_64) sample_stack_map_with_inlining
                      header_with_inlining StackMap.DexRegisterMapOffset 0xFFFF = Ok this'
    /\ StackMap.GetField (H := debug_build_64) this' header_with_inlining
                         StackMap.DexRegisterMapOffset = Ok 0xFFFFFFFF.
Proof.
  apply (@all_ones_offset_reads_as_none debug_build_64).
  - reflexivity.
  - reflexivity.
  - vm_compute. split; discriminate.
  - vm_compute. discriminate.
  - vm_compute. discriminate.
  - vm_compute. reflexivity.
  - right. reflexivity.
Defined.

(** X12. A setter does not disturb the other fields: when the bytes of
    two fields do not overlap, a getter of the one returns after a setter
    of the other what it returned before. *)
Theorem setter_keeps_other_fields `{Build} (this this' : StackMap.t) (info : CodeInfo.t)
        (written read : StackMap.Field) (value : Z) :
  0 <= StackMap.NumberOfBytes info written ->
  0 <= StackMap.NumberOfBytes info read ->
  MemoryRegion.size (StackMap.region_ this) < 2 ^ size_t_bits ->
  StackMap.FieldOffset info written + StackMap.NumberOfBytes info written
  <= StackMap.FieldOffset info read
  \/ StackMap.FieldOffset info read + StackMap.NumberOfBytes info read
     <= StackMap.FieldOffset info written ->
  StackMap.SetField this info written value = Ok this' ->
  StackMap.GetField this' info read = StackMap.GetField this info read.
Proof.
  intros Hwritten Hread Hfit Hdisjoint Hset.
  apply SetField_Ok in Hset. rewrite !GetField_eq.
  destruct (StackMap.present info read); [|reflexivity].
  destruct (StoreAt_Ok _ _ _ _ _ Hwritten Hfit Hset) as (Hlen & Hframe & _).
  apply LoadAt_ext; [exact Hread | exact Hfit | exact Hlen |].
  intros i Hi. apply Hframe. lia.
Qed.

Lemma setter_keeps_other_fields_witness :
  StackMap.GetField (H := debug_build_64)
    {| StackMap.region_ :=
         [Byte.x05; Byte.xff; Byte.xff; Byte.x34; Byte.x12; Byte.x2a; Byte.x40; Byte.x03] |}
    header_with_inlining StackMap.InlineDescriptorOffset
  = StackMap.GetField (H := debug_build_64) sample_stack_map_with_inlining
                      header_with_inlining StackMap.InlineDescriptorOffset.
Proof.
  apply (@setter_keeps_other_fields debug_build_64 sample_stack_map_with_inlining _
           header_with_inlining StackMap.DexRegisterMapOffset
           StackMap.InlineDescriptorOffset 0x1234).
  - vm_compute. discriminate.
  - vm_compute. discriminate.
  - vm_compute. reflexivity.
  - right. vm_compute. discriminate.
  - vm_compute. reflexivity.
Defined.

(** ** The stack mask *)

Lemma Subregion_ext (region region' : MemoryRegion.t) (offset size_in : Z) :
  length region' = length region ->
  (forall i : nat,
      offset <= Z.of_nat i < offset + size_in ->
      nth_error region' i = nth_error region i) ->
  MemoryRegion.Subregion region' offset size_in
  = MemoryRegion.Subregion region offset size_in.
Proof.
  intros Hlen Hsame. unfold MemoryRegion.Subregion.
  assert (Hcontains : MemoryRegion.contains region' offset (Z.to_nat size_in)
                      = MemoryRegion.contains region offset (Z.to_nat size_in))
    by (unfold MemoryRegion.contains, MemoryRegion.size; rewrite Hlen; reflexivity).
  rewrite Hcontains.
  destruct (MemoryRegion.contains region offset (Z.to_nat size_in)) eqn:Hin; [|reflexivity].
  apply contains_true in Hin. destruct Hin as [Hoff Hin].
  f_equal. apply nth_error_ext. intros i.
  rewrite !nth_error_firstn, !nth_error_skipn.
  destruct (Nat.ltb_spec i (Z.to_nat size_in)); [|reflexivity].
  apply Hsame. lia.
Qed.

(** X13. A setter does not disturb the stack mask: when the bytes of the
    field it writes do not overlap the bytes of the stack mask,
    [GetStackMask] gives after the setter the view it gave before. *)
Theorem setter_keeps_stack_mask `{Build} (ComputeStackMapStackMaskOffset : CodeInfo.t -> Z)
        (this this' : StackMap.t) (info : CodeInfo.t) (field : StackMap.Field) (value : Z) :
  0 <= StackMap.NumberOfBytes info field ->
  MemoryRegion.size (StackMap.region_ this) < 2 ^ size_t_bits ->
  StackMap.FieldOffset info field + StackMap.NumberOfBytes info field
  <= ComputeStackMapStackMaskOffset info
  \/ ComputeStackMapStackMaskOffset info + CodeInfo.GetStackMaskSize info
     <= StackMap.FieldOffset info field ->
  StackMap.SetField this info field value = Ok this' ->
  StackMap.GetStackMask ComputeStackMapStackMaskOffset this' info
  = StackMap.GetStackMask ComputeStackMapStackMaskOffset this info.
Proof.
  intros Hw Hfit Hdisjoint Hset. apply SetField_Ok in Hset.
  destruct (StoreAt_Ok _ _ _ _ _ Hw Hfit Hset) as (Hlen & Hframe & _).
  unfold StackMap.GetStackMask. apply Subregion_ext; [exact Hlen|].
  intros i Hi. apply Hframe. lia.
Qed.

Lemma setter_keeps_stack_mask_witness :
  StackMap.GetStackMask (fun _ => 0)
    {| StackMap.region_ :=
         [Byte.x05; Byte.xff; Byte.xff; Byte.x10; Byte.x00; Byte.x2a; Byte.x40; Byte.x0f] |}
    header_with_inlining
  = StackMap.GetStackMask (fun _ => 0) sample_stack_map_with_inlining header_with_inlining.
Proof.
  apply (@setter_keeps_stack_mask debug_build_64 (fun _ => 0)
           sample_stack_map_with_inlining _ header_with_inlining StackMap.RegisterMask 0x0F).
  - vm_compute. discriminate.
  - vm_compute. reflexivity.
  - right. vm_compute. discriminate.
  - vm_compute. reflexivity.
Defined.

(** * Properties of the record size *)

Lemma EncodingSizeInBytes_monotone (a b : Z) :
  0 <= a <= b -> CodeInfo.EncodingSizeInBytes a <= CodeInfo.EncodingSizeInBytes b.
Proof.
  intros Hab. unfold CodeInfo.EncodingSizeInBytes.
  destruct (Z.eqb_spec a 0); destruct (Z.eqb_spec b 0);
    destruct (Z.ltb_spec a (2 ^ 8)); destruct (Z.ltb_spec b (2 ^ 8));
    destruct (Z.ltb_spec a (2 ^ 16)); destruct (Z.ltb_spec b (2 ^ 16));
    destruct (Z.ltb_spec a (2 ^ 24)); destruct (Z.ltb_spec b (2 ^ 24)); lia.
Qed.

Lemma EncodingSizeInBytes_range (max_element : Z) :
  0 <= CodeInfo.EncodingSizeInBytes max_element <= 4.
Proof.
  unfold CodeInfo.EncodingSizeInBytes.
  destruct (max_element =? 0); [lia|]. destruct (max_element <? 2 ^ 8); [lia|].
  destruct (max_element <? 2 ^ 16); [lia|]. destruct (max_element <? 2 ^ 24); lia.
Qed.

(** Without wrap-around, the size is the stack mask plus the five widths. *)
Lemma ComputeStackMapSize_exact `{Build}
      (stack_mask_size inline_info_size dex_register_map_size
       dex_pc_max native_pc_max register_mask_max : Z) :
  32 <= size_t_bits ->
  0 <= stack_mask_size -> stack_mask_size + 20 < 2 ^ size_t_bits ->
  0 <= inline_info_size -> 0 <= dex_register_map_size ->
  inline_info_size + dex_register_map_size + 1 < 2 ^ 32 ->
  StackMap.ComputeStackMapSize stack_mask_size inline_info_size dex_register_map_size
                               dex_pc_max native_pc_max register_mask_max
  = stack_mask_size
    + (if inline_info_size =? 0 then 0
       else CodeInfo.EncodingSizeInBytes (inline_info_size + dex_register_map_size + 1))
    + CodeInfo.EncodingSizeInBytes (dex_register_map_size + 1)
    + CodeInfo.EncodingSizeInBytes dex_pc_max
    + CodeInfo.EncodingSizeInBytes native_pc_max
    + CodeInfo.EncodingSizeInBytes register_mask_max.
Proof.
  intros Hbits Hmask Hfit Hinline Hdex Hmax.
  unfold StackMap.ComputeStackMapSize, StackMap.ComputeStackMapSizeInternal.
  rewrite (size_t_of_uint32 (inline_info_size + dex_register_map_size)) by lia.
  rewrite (size_t_of_uint32 (inline_info_size + dex_register_map_size + 1)) by lia.
  rewrite (size_t_of_uint32 (dex_register_map_size + 1)) by lia.
  set (w1 := if inline_info_size =? 0 then 0
             else CodeInfo.EncodingSizeInBytes (inline_info_size + dex_register_map_size + 1)).
  assert (Hw1 : 0 <= w1 <= 4).
  { unfold w1. destruct (inline_info_size =? 0); [lia | apply EncodingSizeInBytes_range]. }
  pose proof (EncodingSizeInBytes_range (dex_register_map_size + 1)) as Hw2.
  pose proof (EncodingSizeInBytes_range dex_pc_max) as Hw3.
  pose proof (EncodingSizeInBytes_range native_pc_max) as Hw4.
  pose proof (EncodingSizeInBytes_range register_mask_max) as Hw5.
  set (w2 := CodeInfo.EncodingSizeInBytes (dex_register_map_size + 1)) in *.
  set (w3 := CodeInfo.EncodingSizeInBytes dex_pc_max) in *.
  set (w4 := CodeInfo.EncodingSizeInBytes native_pc_max) in *.
  set (w5 := CodeInfo.EncodingSizeInBytes register_mask_max) in *.
  rewrite (size_t_small (stack_mask_size + w1)) by lia.
  rewrite (size_t_small (stack_mask_size + w1 + w2)) by lia.
  rewrite (size_t_small (stack_mask_size + w1 + w2 + w3)) by lia.
  rewrite (size_t_small (stack_mask_size + w1 + w2 + w3 + w4)) by lia.
  apply size_t_small. lia.
Qed.

(** X14. A record is never just its stack mask: the variable-map offset
    field takes at least one byte even for a method without variable maps,
    because of the 1 added for the sentinel, so the size computed lies
    between [stack_mask_size + 1] and [stack_mask_size + 20], and is at most
    [stack_mask_size + 16] for a method without inline info. *)
Theorem ComputeStackMapSize_bounds `{Build}
        (stack_mask_size inline_info_size dex_register_map_size
         dex_pc_max native_pc_max register_mask_max : Z) :
  32 <= size_t_bits ->
  0 <= stack_mask_size -> stack_mask_size + 20 < 2 ^ size_t_bits ->
  0 <= inline_info_size -> 0 <= dex_register_map_size ->
  inline_info_size + dex_register_map_size + 1 < 2 ^ 32 ->
  let size :=
    StackMap.ComputeStackMapSize stack_mask_size inline_info_size dex_register_map_size
                                 dex_pc_max native_pc_max register_mask_max in
  stack_mask_size + 1 <= size <= stack_mask_size + 20
  /\ (inline_info_size = 0 -> size <= stack_mask_size + 16)
  /\ (inline_info_size <> 0 -> stack_mask_size + 2 <= size).
Proof.
  intros Hbits Hmask Hfit Hinline Hdex Hmax size. unfold size.
  rewrite ComputeStackMapSize_exact by assumption.
  destruct (EncodingSizeInBytes_covers (dex_register_map_size + 1)) as (Hw2 & _ & Hpos2);
    [lia|].
  destruct (EncodingSizeInBytes_covers (inline_info_size + dex_register_map_size + 1))
    as (Hw1 & _ & Hpos1); [lia|].
  pose proof (EncodingSizeInBytes_range dex_pc_max) as Hw3.
  pose proof (EncodingSizeInBytes_range native_pc_max) as Hw4.
  pose proof (EncodingSizeInBytes_range register_mask_max) as Hw5.
  destruct (Z.eqb_spec inline_info_size 0); repeat split; intros; lia.
Qed.

Lemma ComputeStackMapSize_bounds_witness :
  let size := StackMap.ComputeStackMapSize (H := release_build_32) 3 0 0 0 0 0 in
  3 + 1 <= size <= 3 + 20
  /\ (0 = 0 -> size <= 3 + 16)
  /\ (0 <> 0 -> 3 + 2 <= size).
Proof.
  apply (@ComputeStackMapSize_bounds release_build_32 3 0 0 0 0 0).
  - vm_compute. discriminate.
  - lia.
  - vm_compute. reflexivity.
  - lia.
  - lia.
  - vm_compute. reflexivity.
Defined.

(** X15. Records never shrink when the table grows: if every maximum
    handed to [ComputeStackMapSize] is at least what it was, so is the size
    computed. *)
Theorem ComputeStackMapSize_monotone `{Build}
        (stack_mask_size
         inline_info_size dex_register_map_size dex_pc_max native_pc_max register_mask_max
         inline_info_size' dex_register_map_size' dex_pc_max' native_pc_max'
         register_mask_max' : Z) :
  32 <= size_t_bits ->
  0 <= stack_mask_size -> stack_mask_size + 20 < 2 ^ size_t_bits ->
  0 <= inline_info_size <= inline_info_size' ->
  0 <= dex_register_map_size <= dex_register_map_size' ->
  0 <= dex_pc_max <= dex_pc_max' ->
  0 <= native_pc_max <= native_pc_max' ->
  0 <= register_mask_max <= register_mask_max' ->
  inline_info_size' + dex_register_map_size' + 1 < 2 ^ 32 ->
  StackMap.ComputeStackMapSize stack_mask_size inline_info_size dex_register_map_size
                               dex_pc_max native_pc_max register_mask_max
  <= StackMap.ComputeStackMapSize stack_mask_size inline_info_size' dex_register_map_size'
                                  dex_pc_max' native_pc_max' register_mask_max'.
Proof.
  intros Hbits Hmask Hfit Hinline Hdex Hpc Hnative Hregister Hmax.
  rewrite !ComputeStackMapSize_exact by (try assumption; lia).
  pose proof (EncodingSizeInBytes_monotone (dex_register_map_size + 1)
                                           (dex_register_map_size' + 1)) as H2.
  pose proof (EncodingSizeInBytes_monotone dex_pc_max dex_pc_max' Hpc) as H3.
  pose proof (EncodingSizeInBytes_monotone native_pc_max native_pc_max' Hnative) as H4.
  pose proof (EncodingSizeInBytes_monotone register_mask_max register_mask_max' Hregister)
    as H5.
  pose proof (EncodingSizeInBytes_monotone
                (inline_info_size + dex_register_map_size + 1)
                (inline_info_size' + dex_register_map_size' + 1)) as H1.
  pose proof (EncodingSizeInBytes_range
                (inline_info_size' + dex_register_map_size' + 1)) as Hrange.
  destruct (Z.eqb_spec inline_info_size 0); destruct (Z.eqb_spec inline_info_size' 0); lia.
Qed.

Lemma ComputeStackMapSize_monotone_witness :
  StackMap.ComputeStackMapSize (H := debug_build_64) 2 0 255 10 100 3
  <= StackMap.ComputeStackMapSize (H := debug_build_64) 2 40 300 10 70000 3.
Proof.
  apply (@ComputeStackMapSize_monotone debug_build_64); vm_compute;
    first [reflexivity | discriminate | split; discriminate].
Defined.

(** * The byte order of a field *)

(** X16. At every width from 1 to 4 a field is little-endian:
    [StoreAt] replaces the field by the [w] low bytes of the value, byte [k]
    being bits [8k .. 8k+7], and [LoadAt] without sentinel check returns
    the little-endian number of the bytes it finds.  A 3-byte field is
    thus the first three bytes of the 4-byte layout. *)
Theorem fields_are_little_endian `{Build} (a b c : MemoryRegion.t) (w value : Z) :
  1 <= w <= 4 ->
  Z.of_nat (length b) = w ->
  MemoryRegion.size (a ++ b ++ c) < 2 ^ size_t_bits ->
  StoreAt (a ++ b ++ c) w (Z.of_nat (length a)) value
  = Ok (a ++ le_split (Z.to_nat w) value ++ c)
  /\ (forall k : nat,
        Z.of_nat k < w ->
        nth_error (le_split (Z.to_nat w) value) k
        = Some (byte.of_Z (Z.shiftr value (8 * Z.of_nat k))))
  /\ le_split (Z.to_nat w) value = firstn (Z.to_nat w) (le_split 4 value)
  /\ LoadAt (a ++ b ++ c) w (Z.of_nat (length a)) false = Ok (le_combine b).
Proof.
  intros Hw Hb Hfit. split; [|split; [|split]].
  - apply StoreAt_split; assumption.
  - intros k Hk. apply nth_error_le_split. lia.
  - destruct (width_cases w Hw) as [-> | [-> | [-> | ->]]]; reflexivity.
  - rewrite LoadAt_split by assumption. reflexivity.
Qed.

Lemma fields_are_little_endian_witness :
  StoreAt (H := debug_build_64) ([Byte.x07] ++ [Byte.x01; Byte.x02] ++ [Byte.x09]) 2 1 0x1234
  = Ok ([Byte.x07] ++ le_split 2 0x1234 ++ [Byte.x09])
  /\ (forall k : nat,
        Z.of_nat k < 2 ->
        nth_error (le_split 2 0x1234) k
        = Some (byte.of_Z (Z.shiftr 0x1234 (8 * Z.of_nat k))))
  /\ le_split 2 0x1234 = firstn 2 (le_split 4 0x1234)
  /\ LoadAt (H := debug_build_64) ([Byte.x07] ++ [Byte.x01; Byte.x02] ++ [Byte.x09]) 2 1 false
     = Ok (le_combine [Byte.x01; Byte.x02]).
Proof.
  apply (@fields_are_little_endian debug_build_64
           [Byte.x07] [Byte.x01; Byte.x02] [Byte.x09] 2 0x1234).
  - lia.
  - reflexivity.
  - vm_compute. reflexivity.
Defined.

(** * The inline-info setter in a release build *)



(** * The widths of the size computation are enough *)



